(** * Room coordinator of the signaling server

    Shallow embedding of the socket handlers of the signaling endpoint
    (the [join-room], [signal], [leave-room] and [disconnect] handlers and
    the two helpers [handleLeaveRoom] and [handleDisconnect]).

    The module-level [rooms] table is a JavaScript [Map<string, Room>] and
    [Room.viewers] a [Set<string>]; both iterate in insertion order and the
    handlers emit one message per element visited, so they are kept here as
    insertion-ordered lists.  Every handler takes the table and returns the
    new table together with the transport calls it made, in program order. *)

From Stdlib Require Import List String Bool Arith Lia.
Import ListNotations.
Open Scope string_scope.
Open Scope list_scope.

(** ** Data model *)

(** [interface Room { streamer?: string; viewers: Set<string> }] *)
Record Room : Type := mkRoom {
  streamer : option string;
  viewers : list string
}.

(** [const rooms = new Map<string, Room>()] *)
Definition Rooms : Type := list (string * Room).

(** [new Map()] *)
Definition rooms_empty : Rooms := [].

(** ** [Set<string>] operations used on [room.viewers] *)

(** [viewers.has(x)] *)
Definition set_has (s : list string) (x : string) : bool :=
  existsb (String.eqb x) s.

(** [viewers.add(x)]: a present element keeps its place, a new one goes last. *)
Definition set_add (s : list string) (x : string) : list string :=
  if set_has s x then s else s ++ [x].

(** [viewers.delete(x)] *)
Definition set_delete (s : list string) (x : string) : list string :=
  filter (fun y => negb (String.eqb y x)) s.

(** ** [Map<string, Room>] operations used on [rooms] *)

(** [rooms.get(k)] *)
Fixpoint rooms_get (m : Rooms) (k : string) : option Room :=
  match m with
  | [] => None
  | (k', v) :: rest => if String.eqb k' k then Some v else rooms_get rest k
  end.

(** [rooms.has(k)] *)
Definition rooms_has (m : Rooms) (k : string) : bool :=
  match rooms_get m k with
  | Some _ => true
  | None => false
  end.

(** [rooms.set(k, v)]: an existing key keeps its position, a new key is
    appended. *)
Fixpoint rooms_set (m : Rooms) (k : string) (v : Room) : Rooms :=
  match m with
  | [] => [(k, v)]
  | (k', v') :: rest =>
      if String.eqb k' k then (k, v) :: rest
      else (k', v') :: rooms_set rest k v
  end.

(** [rooms.delete(k)] *)
Definition rooms_delete (m : Rooms) (k : string) : Rooms :=
  filter (fun kv => negb (String.eqb (fst kv) k)) m.

(** Mutation of the room object stored under [k] through an alias
    ([room.streamer = ...], [room.viewers.add(...)],
    [room.viewers.delete(...)]): the entry changes in place and no key is
    ever added. *)
Fixpoint rooms_mutate (m : Rooms) (k : string) (f : Room -> Room) : Rooms :=
  match m with
  | [] => []
  | (k', v) :: rest =>
      if String.eqb k' k then (k', f v) :: rest
      else (k', v) :: rooms_mutate rest k f
  end.

(** JavaScript truthiness of [room.streamer]: [undefined] and the empty
    string are falsy.  Returns the identifier when the test succeeds. *)
Definition truthy (s : option string) : option string :=
  match s with
  | Some x => if String.eqb x "" then None else Some x
  | None => None
  end.

(** [room.streamer === socketId] *)
Definition streamer_is (room : Room) (socketId : string) : bool :=
  match streamer room with
  | Some s => String.eqb s socketId
  | None => false
  end.

Definition set_streamer (socketId : string) (room : Room) : Room :=
  mkRoom (Some socketId) (viewers room).

Definition add_viewer (socketId : string) (room : Room) : Room :=
  mkRoom (streamer room) (set_add (viewers room) socketId).

Definition delete_viewer (socketId : string) (room : Room) : Room :=
  mkRoom (streamer room) (set_delete (viewers room) socketId).

(** ** Membership bookkeeping used by the statements *)

Inductive Role : Type := RStreamer | RViewer.

(** The roles a connection holds in one room. *)
Definition room_roles (c : string) (room : Room) : list Role :=
  (if streamer_is room c then [RStreamer] else []) ++
  (if set_has (viewers room) c then [RViewer] else []).

(** Every (room, role) pair in which connection [c] appears. *)
Definition memberships (c : string) (m : Rooms) : list (string * Role) :=
  flat_map (fun kv => map (pair (fst kv)) (room_roles c (snd kv))) m.

(** ** Representation invariant of the table *)

(** A room object as the handlers build it: the streamer slot never holds
    the empty string and the viewer set has no repeated element. *)
Definition room_wf (room : Room) : Prop :=
  streamer room <> Some "" /\ NoDup (viewers room).

(** Keys of a [Map] are pairwise distinct. *)
Definition rooms_wf (m : Rooms) : Prop :=
  NoDup (map fst m) /\ Forall (fun kv => room_wf (snd kv)) m.

Section Coordinator.

(** The [signal] field of a signalling message is typed [unknown] and is
    never inspected by the server. *)
Variable Payload : Type.

(** Server-to-client events with their arguments. *)
Inductive event : Type :=
| EvError (message : string)
| EvStreamerJoined
| EvViewerJoined (viewerId : string)
| EvSignal (from : string) (signal : Payload)
| EvStreamerSignal (signal : Payload)
| EvViewerDisconnected (viewerId : string)
| EvStreamerDisconnected.

(** Calls made on the transport: [socket.join(roomId)],
    [socket.emit(ev, ...)] on the handling socket, and
    [io.to(target).emit(ev, ...)]. *)
Inductive call : Type :=
| SocketJoin (sid roomId : string)
| SocketEmit (sid : string) (ev : event)
| IoEmit (target : string) (ev : event).

(** The messages among the transport calls. *)
Definition is_emit (c : call) : bool :=
  match c with
  | SocketJoin _ _ => false
  | _ => true
  end.

Definition notifications (out : list call) : list call := filter is_emit out.

Definition error_message : string := "Room already has a streamer".

(** ** Handlers *)

(** [if (!rooms.has(roomId)) { rooms.set(roomId, { viewers: new Set() }); }] *)
Definition ensured (rooms : Rooms) (roomId : string) : Rooms :=
  if rooms_has rooms roomId then rooms
  else rooms_set rooms roomId (mkRoom None []).

(** [socket.on('join-room', ({ roomId, role }) => ...)] for socket [sid].
    [role] is compared with ['streamer'] only; every other value takes the
    [else] branch.  The [None] case of [rooms.get(roomId)!] never arises
    (lemma [ensured_get] below). *)
Definition join_room (sid roomId role : string) (rooms : Rooms)
  : Rooms * list call :=
  let rooms1 := ensured rooms roomId in
  match rooms_get rooms1 roomId with
  | None => (rooms1, [SocketJoin sid roomId])
  | Some room =>
      if String.eqb role "streamer" then
        match truthy (streamer room) with
        | Some _ =>
            (rooms1, [SocketJoin sid roomId; SocketEmit sid (EvError error_message)])
        | None =>
            (rooms_mutate rooms1 roomId (set_streamer sid),
             SocketJoin sid roomId
               :: map (fun viewerId => IoEmit viewerId EvStreamerJoined) (viewers room))
        end
      else
        (rooms_mutate rooms1 roomId (add_viewer sid),
         SocketJoin sid roomId
           :: match truthy (streamer room) with
              | Some s => [IoEmit s (EvViewerJoined sid)]
              | None => []
              end)
  end.

(** [socket.on('signal', ({ to, signal, room }) => ...)] for socket [sid]. *)
Definition signal (sid to : string) (sig : Payload) (room : string) (rooms : Rooms)
  : Rooms * list call :=
  if String.eqb to "streamer" then
    match rooms_get rooms room with
    | Some roomData =>
        match truthy (streamer roomData) with
        | Some s => (rooms, [IoEmit s (EvSignal sid sig)])
        | None => (rooms, [])
        end
    | None => (rooms, [])
    end
  else (rooms, [IoEmit to (EvStreamerSignal sig)]).

(** The messages of the two teardown branches, named for the statements
    below: the [forEach] over the viewers when the streamer goes, and the
    single notice to the streamer when a viewer goes. *)
Definition streamer_gone (room : Room) : list call :=
  map (fun viewerId => IoEmit viewerId EvStreamerDisconnected) (viewers room).



(** [function handleDisconnect(socketId, roomId, room, io)]; [room] is the
    object stored under [roomId]. *)
Definition handleDisconnect (socketId roomId : string) (room : Room) (rooms : Rooms)
  : Rooms * list call :=
  if streamer_is room socketId then
    (rooms_delete rooms roomId,
     map (fun viewerId => IoEmit viewerId EvStreamerDisconnected) (viewers room))
  else if set_has (viewers room) socketId then
    let rooms1 := rooms_mutate rooms roomId (delete_viewer socketId) in
    let out :=
      match truthy (streamer room) with
      | Some s => [IoEmit s (EvViewerDisconnected socketId)]
      | None => []
      end in
    match truthy (streamer room) with
    | None =>
        if Nat.eqb (List.length (set_delete (viewers room) socketId)) 0
        then (rooms_delete rooms1 roomId, out)
        else (rooms1, out)
    | Some _ => (rooms1, out)
    end
  else (rooms, []).

(** [function handleLeaveRoom(socketId, roomId, io)] *)
Definition handleLeaveRoom (socketId roomId : string) (rooms : Rooms)
  : Rooms * list call :=
  match rooms_get rooms roomId with
  | None => (rooms, [])
  | Some room =>
      if streamer_is room socketId then
        (rooms_delete rooms roomId,
         map (fun viewerId => IoEmit viewerId EvStreamerDisconnected) (viewers room))
      else if set_has (viewers room) socketId then
        let rooms1 := rooms_mutate rooms roomId (delete_viewer socketId) in
        let out :=
          match truthy (streamer room) with
          | Some s => [IoEmit s (EvViewerDisconnected socketId)]
          | None => []
          end in
        match truthy (streamer room) with
        | None =>
            if Nat.eqb (List.length (set_delete (viewers room) socketId)) 0
            then (rooms_delete rooms1 roomId, out)
            else (rooms1, out)
        | Some _ => (rooms1, out)
        end
      else (rooms, [])
  end.

(** [socket.on('leave-room', (roomId) => handleLeaveRoom(socket.id, roomId, io))] *)
Definition leave_room (sid roomId : string) (rooms : Rooms) : Rooms * list call :=
  handleLeaveRoom sid roomId rooms.

(** The body of [rooms.forEach((room, roomId) => handleDisconnect(...))]:
    [pending] holds the entries still to be visited.  A callback only ever
    deletes or mutates the entry it is visiting, so the entries visited are
    those of the table at the start, in insertion order. *)
Fixpoint disconnect_loop (sid : string) (pending : Rooms) (rooms : Rooms)
  : Rooms * list call :=
  match pending with
  | [] => (rooms, [])
  | (roomId, room) :: rest =>
      let '(rooms1, out1) := handleDisconnect sid roomId room rooms in
      let '(rooms2, out2) := disconnect_loop sid rest rooms1 in
      (rooms2, out1 ++ out2)
  end.

(** [socket.on('disconnect', () => rooms.forEach(...))] for socket [sid]. *)
Definition disconnect (sid : string) (rooms : Rooms) : Rooms * list call :=
  disconnect_loop sid rooms rooms.

(** ** The disconnect scan room by room

    A second description of [disconnect], to be compared with the scan
    above: what the teardown of [sid] leaves of one table entry taken on
    its own (nothing, the room without [sid], or the entry as it is), and
    the table obtained by treating every entry that way. *)
Definition sweep_room (sid : string) (kv : string * Room) : Rooms :=
  if streamer_is (snd kv) sid then []
  else if set_has (viewers (snd kv)) sid then
    match truthy (streamer (snd kv)), set_delete (viewers (snd kv)) sid with
    | None, [] => []
    | _, _ => [(fst kv, delete_viewer sid (snd kv))]
    end
  else [kv].

Definition sweep (sid : string) (rooms : Rooms) : Rooms :=
  flat_map (sweep_room sid) rooms.

(** The messages the teardown of [sid] sends for one room. *)
Definition room_notices (sid : string) (room : Room) : list call :=
  if streamer_is room sid then streamer_gone room
  else if set_has (viewers room) sid then
    match truthy (streamer room) with
    | Some s => [IoEmit s (EvViewerDisconnected sid)]
    | None => []
    end
  else [].

(** A room is occupied when it has a streamer or at least one viewer. *)
Definition occupied (room : Room) : Prop :=
  streamer room <> None \/ viewers room <> [].

(** [c] holds some role in [room]. *)
Definition member (c : string) (room : Room) : Prop :=
  streamer room = Some c \/ In c (viewers room).

(** ** The coordinator as a transition system *)

Inductive op : Type :=
| Join (sid roomId role : string)
| Signal (sid to : string) (sig : Payload) (room : string)
| Leave (sid roomId : string)
| Disconnect (sid : string).

Definition step (o : op) (rooms : Rooms) : Rooms * list call :=
  match o with
  | Join sid roomId role => join_room sid roomId role rooms
  | Signal sid to sig room => signal sid to sig room rooms
  | Leave sid roomId => leave_room sid roomId rooms
  | Disconnect sid => disconnect sid rooms
  end.

(** The socket a request arrives on. *)
Definition op_sid (o : op) : string :=
  match o with
  | Join sid _ _ => sid
  | Signal sid _ _ _ => sid
  | Leave sid _ => sid
  | Disconnect sid => sid
  end.

Fixpoint run (ops : list op) (rooms : Rooms) : Rooms * list call :=
  match ops with
  | [] => (rooms, [])
  | o :: rest =>
      let '(rooms1, out1) := step o rooms in
      let '(rooms2, out2) := run rest rooms1 in
      (rooms2, out1 ++ out2)
  end.

(** Tables the server can be in: it starts from [new Map()] and every
    request arrives on a socket whose server-assigned id is non-empty. *)
Inductive reachable : Rooms -> Prop :=
| reachable_init : reachable rooms_empty
| reachable_step (rooms : Rooms) (o : op) :
    reachable rooms -> op_sid o <> "" -> reachable (fst (step o rooms)).

(** Discipline of one join request: the socket asks to join only while it
    is in no room, or asks again for the room and role it already holds. *)
Definition joins_disciplined (o : op) (rooms : Rooms) : Prop :=
  match o with
  | Join sid roomId role =>
      memberships sid rooms = [] \/
      exists room,
        rooms_get rooms roomId = Some room /\
        if String.eqb role "streamer" then streamer room = Some sid
        else In sid (viewers room)
  | _ => True
  end.

(** Tables reached while socket [c] keeps that discipline in its own
    requests; the requests of every other socket are unconstrained. *)
Inductive reachable_for (c : string) : Rooms -> Prop :=
| reachable_for_init : reachable_for c rooms_empty
| reachable_for_step (rooms : Rooms) (o : op) :
    reachable_for c rooms -> (op_sid o = c -> joins_disciplined o rooms) ->
    reachable_for c (fst (step o rooms)).

(** * Facts about the container operations *)

Ltac eqb_cases a b :=
  let E := fresh "E" in
  destruct (String.eqb a b) eqn:E;
  [apply String.eqb_eq in E | apply String.eqb_neq in E].

Lemma set_has_In (s : list string) (x : string) :
  set_has s x = true <-> In x s.
Proof.
  unfold set_has. rewrite existsb_exists. split.
  - intros [y [Hy E]]. apply String.eqb_eq in E. now subst.
  - intros H. exists x. split; [exact H | apply String.eqb_refl].
Qed.

Lemma set_has_false (s : list string) (x : string) :
  set_has s x = false <-> ~ In x s.
Proof.
  rewrite <- set_has_In. destruct (set_has s x); split; intros; congruence.
Qed.

Lemma set_delete_In (s : list string) (x y : string) :
  In y (set_delete s x) <-> In y s /\ y <> x.
Proof.
  unfold set_delete. rewrite filter_In. rewrite negb_true_iff.
  rewrite String.eqb_neq. tauto.
Qed.

Lemma set_delete_NoDup (s : list string) (x : string) :
  NoDup s -> NoDup (set_delete s x).
Proof. apply NoDup_filter. Qed.

Lemma set_add_In (s : list string) (x y : string) :
  In y (set_add s x) <-> In y s \/ y = x.
Proof.
  unfold set_add. destruct (set_has s x) eqn:E.
  - apply set_has_In in E. split; [tauto | intros [H | ->]; assumption].
  - rewrite in_app_iff. simpl. intuition congruence.
Qed.

Lemma set_add_NoDup (s : list string) (x : string) :
  NoDup s -> NoDup (set_add s x).
Proof.
  intros H. unfold set_add. destruct (set_has s x) eqn:E; [exact H |].
  apply set_has_false in E. apply NoDup_app; simpl.
  - exact H.
  - constructor; [tauto | constructor].
  - intros a Ha [<- | []]. contradiction.
Qed.

Lemma set_add_present (s : list string) (x : string) :
  set_has s x = true -> set_add s x = s.
Proof. intros H. unfold set_add. now rewrite H. Qed.

Lemma rooms_get_In (m : Rooms) (k : string) (v : Room) :
  rooms_get m k = Some v -> In (k, v) m.
Proof.
  induction m as [| [k' v'] m IH]; simpl; [discriminate |].
  eqb_cases k' k.
  - intros [= ->]. subst. now left.
  - intros H. right. now apply IH.
Qed.

Lemma rooms_get_None (m : Rooms) (k : string) :
  rooms_get m k = None <-> ~ In k (map fst m).
Proof.
  induction m as [| [k' v'] m IH]; simpl; [tauto |].
  eqb_cases k' k.
  - split; [discriminate | intros H; exfalso; apply H; now left].
  - rewrite IH. tauto.
Qed.

Lemma In_rooms_get (m : Rooms) (k : string) (v : Room) :
  NoDup (map fst m) -> In (k, v) m -> rooms_get m k = Some v.
Proof.
  induction m as [| [k' v'] m IH]; simpl; [tauto |].
  intros Hnd [[= -> ->] | Hin].
  - now rewrite String.eqb_refl.
  - inversion Hnd as [| ? ? Hk Hnd']; subst.
    eqb_cases k' k.
    + subst. exfalso. apply Hk. change k with (fst (k, v)). now apply in_map.
    + now apply IH.
Qed.

Lemma rooms_get_set_same (m : Rooms) (k : string) (v : Room) :
  rooms_get (rooms_set m k v) k = Some v.
Proof.
  induction m as [| [k' v'] m IH]; simpl.
  - now rewrite String.eqb_refl.
  - destruct (String.eqb k' k) eqn:E; simpl.
    + now rewrite String.eqb_refl.
    + now rewrite E.
Qed.

Lemma rooms_get_set_other (m : Rooms) (k k0 : string) (v : Room) :
  k <> k0 -> rooms_get (rooms_set m k v) k0 = rooms_get m k0.
Proof.
  intros Hne. induction m as [| [k' v'] m IH]; simpl.
  - apply String.eqb_neq in Hne. now rewrite Hne.
  - eqb_cases k' k; simpl.
    + subst. apply String.eqb_neq in Hne. now rewrite Hne.
    + now rewrite IH.
Qed.

Lemma rooms_set_absent (m : Rooms) (k : string) (v : Room) :
  rooms_get m k = None -> rooms_set m k v = m ++ [(k, v)].
Proof.
  induction m as [| [k' v'] m IH]; simpl; [reflexivity |].
  destruct (String.eqb k' k); [discriminate |].
  intros H. now rewrite IH.
Qed.

Lemma rooms_get_delete_same (m : Rooms) (k : string) :
  rooms_get (rooms_delete m k) k = None.
Proof.
  induction m as [| [k' v'] m IH]; simpl; [reflexivity |].
  destruct (String.eqb k' k) eqn:E; simpl; [exact IH |].
  now rewrite E.
Qed.

Lemma rooms_get_delete_other (m : Rooms) (k k0 : string) :
  k <> k0 -> rooms_get (rooms_delete m k) k0 = rooms_get m k0.
Proof.
  intros Hne. induction m as [| [k' v'] m IH]; simpl; [reflexivity |].
  eqb_cases k' k; simpl.
  - subst. apply String.eqb_neq in Hne. now rewrite Hne.
  - now rewrite IH.
Qed.

Lemma rooms_get_mutate_same (m : Rooms) (k : string) (f : Room -> Room) :
  rooms_get (rooms_mutate m k f) k = option_map f (rooms_get m k).
Proof.
  induction m as [| [k' v'] m IH]; simpl; [reflexivity |].
  destruct (String.eqb k' k) eqn:E; simpl; now rewrite E.
Qed.

Lemma rooms_get_mutate_other (m : Rooms) (k k0 : string) (f : Room -> Room) :
  k <> k0 -> rooms_get (rooms_mutate m k f) k0 = rooms_get m k0.
Proof.
  intros Hne. induction m as [| [k' v'] m IH]; simpl; [reflexivity |].
  eqb_cases k' k; simpl.
  - subst. apply String.eqb_neq in Hne. now rewrite Hne.
  - now rewrite IH.
Qed.

Lemma rooms_mutate_fixed (m : Rooms) (k : string) (f : Room -> Room) (v : Room) :
  rooms_get m k = Some v -> f v = v -> rooms_mutate m k f = m.
Proof.
  induction m as [| [k' v'] m IH]; simpl; [reflexivity |].
  destruct (String.eqb k' k).
  - intros [= ->] ->. reflexivity.
  - intros H Hf. now rewrite IH.
Qed.

Lemma rooms_mutate_keys (m : Rooms) (k : string) (f : Room -> Room) :
  map fst (rooms_mutate m k f) = map fst m.
Proof.
  induction m as [| [k' v'] m IH]; simpl; [reflexivity |].
  destruct (String.eqb k' k); simpl; [reflexivity | now rewrite IH].
Qed.

Lemma rooms_delete_keys_NoDup (m : Rooms) (k : string) :
  NoDup (map fst m) -> NoDup (map fst (rooms_delete m k)).
Proof.
  induction m as [| [k' v'] m IH]; simpl; [trivial |].
  intros H. inversion H as [| ? ? Hk Hnd]; subst.
  destruct (String.eqb k' k); simpl; [now apply IH |].
  constructor; [| now apply IH].
  intros Hin. apply Hk. apply in_map_iff in Hin as [[k1 v1] [E Hin]].
  apply filter_In in Hin as [Hin _]. simpl in E. subst.
  change k' with (fst (k', v1)). now apply in_map.
Qed.

Lemma rooms_delete_absent (m : Rooms) (k : string) :
  rooms_get m k = None -> rooms_delete m k = m.
Proof.
  induction m as [| [k' v'] m IH]; simpl; [reflexivity |].
  destruct (String.eqb k' k); [discriminate |].
  intros H. simpl. now rewrite IH.
Qed.

(** * The representation invariant is preserved *)

Lemma rooms_wf_delete (m : Rooms) (k : string) :
  rooms_wf m -> rooms_wf (rooms_delete m k).
Proof.
  intros [Hk Hr]. split.
  - now apply rooms_delete_keys_NoDup.
  - unfold rooms_delete. rewrite Forall_forall in *.
    intros kv Hin. apply filter_In in Hin. now apply Hr.
Qed.

Lemma rooms_wf_mutate (m : Rooms) (k : string) (f : Room -> Room) :
  (forall v, room_wf v -> room_wf (f v)) ->
  rooms_wf m -> rooms_wf (rooms_mutate m k f).
Proof.
  intros Hf [Hk Hr]. split.
  - now rewrite rooms_mutate_keys.
  - clear Hk. induction m as [| [k' v'] m IH]; simpl; [constructor |].
    inversion Hr as [| ? ? Hv Hr']; subst. simpl in Hv.
    destruct (String.eqb k' k); constructor; simpl; auto.
Qed.

Lemma rooms_wf_set_absent (m : Rooms) (k : string) (v : Room) :
  rooms_get m k = None -> room_wf v -> rooms_wf m -> rooms_wf (rooms_set m k v).
Proof.
  intros Hnone Hv [Hk Hr]. rewrite (rooms_set_absent _ _ _ Hnone). split.
  - rewrite map_app. simpl. apply NoDup_app.
    + exact Hk.
    + constructor; [tauto | constructor].
    + intros a Ha [<- | []]. now apply rooms_get_None in Hnone.
  - apply Forall_app. split; [exact Hr |]. constructor; [exact Hv | constructor].
Qed.

Lemma rooms_wf_get (m : Rooms) (k : string) (v : Room) :
  rooms_wf m -> rooms_get m k = Some v -> room_wf v.
Proof.
  intros [_ Hr] Hget. apply rooms_get_In in Hget.
  rewrite Forall_forall in Hr. exact (Hr _ Hget).
Qed.

Lemma room_wf_empty : room_wf (mkRoom None []).
Proof. split; simpl; [discriminate | constructor]. Qed.

Lemma room_wf_set_streamer (sid : string) (room : Room) :
  sid <> "" -> room_wf room -> room_wf (set_streamer sid room).
Proof. intros Hs [_ Hv]. split; simpl; [congruence | exact Hv]. Qed.

Lemma room_wf_add_viewer (sid : string) (room : Room) :
  room_wf room -> room_wf (add_viewer sid room).
Proof. intros [Hs Hv]. split; simpl; [exact Hs | now apply set_add_NoDup]. Qed.

Lemma room_wf_delete_viewer (sid : string) (room : Room) :
  room_wf room -> room_wf (delete_viewer sid room).
Proof. intros [Hs Hv]. split; simpl; [exact Hs | now apply set_delete_NoDup]. Qed.

(** Under the invariant the truthiness test on the streamer slot is the
    test for a present streamer. *)
Lemma truthy_wf (room : Room) :
  streamer room <> Some "" -> truthy (streamer room) = streamer room.
Proof.
  intros H. unfold truthy. destruct (streamer room) as [s |]; [| reflexivity].
  eqb_cases s ""; [subst; contradiction | reflexivity].
Qed.

Lemma ensured_wf (rooms : Rooms) (roomId : string) :
  rooms_wf rooms -> rooms_wf (ensured rooms roomId).
Proof.
  intros H. unfold ensured, rooms_has.
  destruct (rooms_get rooms roomId) eqn:E; [exact H |].
  apply rooms_wf_set_absent; auto using room_wf_empty.
Qed.

Lemma ensured_get (rooms : Rooms) (roomId : string) :
  rooms_get (ensured rooms roomId) roomId =
  Some match rooms_get rooms roomId with
       | Some room => room
       | None => mkRoom None []
       end.
Proof.
  unfold ensured, rooms_has. destruct (rooms_get rooms roomId) eqn:E.
  - exact E.
  - apply rooms_get_set_same.
Qed.

Lemma ensured_present (rooms : Rooms) (roomId : string) (room : Room) :
  rooms_get rooms roomId = Some room -> ensured rooms roomId = rooms.
Proof. intros H. unfold ensured, rooms_has. now rewrite H. Qed.

Lemma join_room_wf (sid roomId role : string) (rooms : Rooms) :
  sid <> "" -> rooms_wf rooms -> rooms_wf (fst (join_room sid roomId role rooms)).
Proof.
  intros Hs Hwf. unfold join_room.
  pose proof (ensured_wf rooms roomId Hwf) as Hwf1.
  destruct (rooms_get (ensured rooms roomId) roomId) as [room |]; [| exact Hwf1].
  destruct (String.eqb role "streamer").
  - destruct (truthy (streamer room)); simpl; [exact Hwf1 |].
    apply rooms_wf_mutate; [| exact Hwf1].
    intros v. now apply room_wf_set_streamer.
  - simpl. apply rooms_wf_mutate; [| exact Hwf1].
    intros v. apply room_wf_add_viewer.
Qed.

Lemma signal_rooms (sid to : string) (sig : Payload) (room : string) (rooms : Rooms) :
  fst (signal sid to sig room rooms) = rooms.
Proof.
  unfold signal. destruct (String.eqb to "streamer"); [| reflexivity].
  destruct (rooms_get rooms room) as [rd |]; [| reflexivity].
  now destruct (truthy (streamer rd)).
Qed.

Lemma handleDisconnect_wf (sid roomId : string) (room : Room) (rooms : Rooms) :
  rooms_wf rooms -> rooms_wf (fst (handleDisconnect sid roomId room rooms)).
Proof.
  intros Hwf. unfold handleDisconnect.
  pose proof (rooms_wf_mutate rooms roomId (delete_viewer sid)
                (room_wf_delete_viewer sid) Hwf) as Hm.
  destruct (streamer_is room sid); simpl; [now apply rooms_wf_delete |].
  destruct (set_has (viewers room) sid); simpl; [| exact Hwf].
  destruct (truthy (streamer room)); simpl; [exact Hm |].
  destruct (Nat.eqb _ 0); simpl; [now apply rooms_wf_delete | exact Hm].
Qed.

(** The two teardown helpers have the same body. *)
Lemma handleLeaveRoom_handleDisconnect (sid roomId : string) (room : Room) (rooms : Rooms) :
  rooms_get rooms roomId = Some room ->
  handleLeaveRoom sid roomId rooms = handleDisconnect sid roomId room rooms.
Proof. intros H. unfold handleLeaveRoom, handleDisconnect. now rewrite H. Qed.

Lemma handleLeaveRoom_absent (sid roomId : string) (rooms : Rooms) :
  rooms_get rooms roomId = None -> handleLeaveRoom sid roomId rooms = (rooms, []).
Proof. intros H. unfold handleLeaveRoom. now rewrite H. Qed.

Lemma handleLeaveRoom_wf (sid roomId : string) (rooms : Rooms) :
  rooms_wf rooms -> rooms_wf (fst (handleLeaveRoom sid roomId rooms)).
Proof.
  intros Hwf. destruct (rooms_get rooms roomId) as [room |] eqn:E.
  - rewrite (handleLeaveRoom_handleDisconnect _ _ _ _ E).
    now apply handleDisconnect_wf.
  - now rewrite handleLeaveRoom_absent.
Qed.

Lemma disconnect_loop_wf (sid : string) (pending rooms : Rooms) :
  rooms_wf rooms -> rooms_wf (fst (disconnect_loop sid pending rooms)).
Proof.
  revert rooms. induction pending as [| [roomId room] rest IH]; intros rooms Hwf;
    simpl; [exact Hwf |].
  pose proof (handleDisconnect_wf sid roomId room rooms Hwf) as H1.
  destruct (handleDisconnect sid roomId room rooms) as [rooms1 out1].
  specialize (IH rooms1 H1).
  now destruct (disconnect_loop sid rest rooms1) as [rooms2 out2].
Qed.

Lemma step_wf (o : op) (rooms : Rooms) :
  op_sid o <> "" -> rooms_wf rooms -> rooms_wf (fst (step o rooms)).
Proof.
  destruct o as [sid roomId role | sid to sig room | sid roomId | sid];
    simpl; intros Hs Hwf.
  - now apply join_room_wf.
  - now rewrite signal_rooms.
  - now apply handleLeaveRoom_wf.
  - now apply disconnect_loop_wf.
Qed.

Lemma reachable_wf (rooms : Rooms) : reachable rooms -> rooms_wf rooms.
Proof.
  induction 1 as [| rooms o _ IH Hs].
  - split; constructor.
  - now apply step_wf.
Qed.

Lemma reachable_run (ops : list op) (rooms : Rooms) :
  reachable rooms -> Forall (fun o => op_sid o <> "") ops ->
  reachable (fst (run ops rooms)).
Proof.
  revert rooms. induction ops as [| o rest IH]; intros rooms Hr Hops; simpl;
    [exact Hr |].
  inversion Hops as [| ? ? Ho Hrest]; subst.
  pose proof (reachable_step rooms o Hr Ho) as H1.
  destruct (step o rooms) as [rooms1 out1]. simpl in H1.
  specialize (IH rooms1 H1 Hrest).
  now destruct (run rest rooms1) as [rooms2 out2].
Qed.

(** * The [join-room] handler *)

Lemma join_room_occupied (rooms : Rooms) (r : string) (room : Room) (S C : string) :
  rooms_get rooms r = Some room -> streamer room = Some S -> S <> "" ->
  join_room C r "streamer" rooms =
  (rooms, [SocketJoin C r; SocketEmit C (EvError error_message)]).
Proof.
  intros Hget Hs Hne. unfold join_room.
  rewrite (ensured_present _ _ _ Hget), Hget. simpl.
  rewrite Hs. simpl. eqb_cases S ""; [contradiction | reflexivity].
Qed.

Lemma join_room_viewer_present (rooms : Rooms) (r role : string) (room : Room) (C : string) :
  role <> "streamer" -> rooms_get rooms r = Some room -> In C (viewers room) ->
  join_room C r role rooms =
  (rooms,
   SocketJoin C r ::
     match truthy (streamer room) with
     | Some s => [IoEmit s (EvViewerJoined C)]
     | None => []
     end).
Proof.
  intros Hrole Hget Hin. unfold join_room.
  rewrite (ensured_present _ _ _ Hget), Hget.
  apply String.eqb_neq in Hrole. rewrite Hrole.
  rewrite (rooms_mutate_fixed _ _ _ _ Hget); [reflexivity |].
  unfold add_viewer. apply set_has_In in Hin.
  rewrite (set_add_present _ _ Hin). now destruct room.
Qed.

(** C1. In every table the server can reach, a room code has a single entry
    and hence a single streamer slot holding at most one connection id; and
    a join as streamer by [C] on a room whose streamer slot holds another
    connection [S] leaves the table as it was (so [S] stays assigned) and
    sends one message, the error, on [C]'s own socket. *)
Theorem C1_single_streamer (rooms : Rooms) :
  reachable rooms ->
  (forall r room1 room2 S1 S2,
      In (r, room1) rooms -> In (r, room2) rooms ->
      streamer room1 = Some S1 -> streamer room2 = Some S2 -> S1 = S2) /\
  (forall r room S C,
      rooms_get rooms r = Some room -> streamer room = Some S -> S <> C ->
      join_room C r "streamer" rooms =
        (rooms, [SocketJoin C r; SocketEmit C (EvError error_message)]) /\
      notifications (snd (join_room C r "streamer" rooms)) =
        [SocketEmit C (EvError error_message)] /\
      rooms_get (fst (join_room C r "streamer" rooms)) r = Some room).
Proof.
  intros Hreach. pose proof (reachable_wf rooms Hreach) as Hwf. split.
  - intros r room1 room2 S1 S2 H1 H2 E1 E2.
    destruct Hwf as [Hk _].
    apply (In_rooms_get _ _ _ Hk) in H1. apply (In_rooms_get _ _ _ Hk) in H2.
    congruence.
  - intros r room S C Hget Hs _.
    assert (Hne : S <> "").
    { intros ->. now destruct (rooms_wf_get _ _ _ Hwf Hget). }
    rewrite (join_room_occupied _ _ _ _ C Hget Hs Hne). simpl. auto.
Qed.

(** * The [signal] handler *)

(** C7. A signal addressed to ["streamer"] for a room that has no table
    entry, or whose entry has no streamer, makes no transport call at all
    (nothing is delivered, no error goes back to the sender) and leaves the
    table as it was. *)
Theorem C7_signal_without_streamer
    (sid : string) (sig : Payload) (room : string) (rooms : Rooms) :
  (rooms_get rooms room = None \/
   exists roomData, rooms_get rooms room = Some roomData /\ streamer roomData = None) ->
  signal sid "streamer" sig room rooms = (rooms, []).
Proof.
  intros [Hnone | [roomData [Hget Hs]]]; unfold signal; simpl.
  - now rewrite Hnone.
  - now rewrite Hget, Hs.
Qed.

(** C10. A signal whose [to] is anything other than the literal
    ["streamer"] is forwarded to [to] as one [streamer-signal] event
    carrying the payload; the table is returned as it was and the result
    does not depend on the table, on the [room] field or on the sender. *)
Theorem C10_signal_direct
    (sid to : string) (sig : Payload) (room : string) (rooms : Rooms) :
  to <> "streamer" ->
  signal sid to sig room rooms = (rooms, [IoEmit to (EvStreamerSignal sig)]) /\
  (forall sid' room' rooms',
      snd (signal sid' to sig room' rooms') = snd (signal sid to sig room rooms)).
Proof.
  intros Hto. apply String.eqb_neq in Hto. unfold signal. rewrite Hto. auto.
Qed.

(** * Teardown: [handleLeaveRoom], [handleDisconnect] and the disconnect scan *)

Lemma streamer_is_true (room : Room) (c : string) :
  streamer_is room c = true <-> streamer room = Some c.
Proof.
  unfold streamer_is. destruct (streamer room) as [s |].
  - rewrite String.eqb_eq. split; congruence.
  - split; discriminate.
Qed.

Lemma streamer_is_false (room : Room) (c : string) :
  streamer_is room c = false <-> streamer room <> Some c.
Proof.
  rewrite <- streamer_is_true. destruct (streamer_is room c); split; congruence.
Qed.

Lemma handleDisconnect_streamer (sid roomId : string) (room : Room) (rooms : Rooms) :
  streamer room = Some sid ->
  handleDisconnect sid roomId room rooms = (rooms_delete rooms roomId, streamer_gone room).
Proof.
  intros H. apply streamer_is_true in H. unfold handleDisconnect. now rewrite H.
Qed.

Lemma handleDisconnect_stranger (sid roomId : string) (room : Room) (rooms : Rooms) :
  streamer room <> Some sid -> ~ In sid (viewers room) ->
  handleDisconnect sid roomId room rooms = (rooms, []).
Proof.
  intros Hs Hv. apply streamer_is_false in Hs. apply set_has_false in Hv.
  unfold handleDisconnect. now rewrite Hs, Hv.
Qed.


Lemma handleDisconnect_get_other (sid roomId k : string) (room : Room) (rooms : Rooms) :
  roomId <> k ->
  rooms_get (fst (handleDisconnect sid roomId room rooms)) k = rooms_get rooms k.
Proof.
  intros Hne. unfold handleDisconnect.
  destruct (streamer_is room sid); simpl; [now apply rooms_get_delete_other |].
  destruct (set_has (viewers room) sid); simpl; [| reflexivity].
  destruct (truthy (streamer room)); simpl;
    [now apply rooms_get_mutate_other |].
  destruct (Nat.eqb _ 0); simpl.
  - rewrite rooms_get_delete_other by exact Hne. now apply rooms_get_mutate_other.
  - now apply rooms_get_mutate_other.
Qed.

Lemma handleDisconnect_absent (sid roomId k : string) (room : Room) (rooms : Rooms) :
  rooms_get rooms k = None ->
  rooms_get (fst (handleDisconnect sid roomId room rooms)) k = None.
Proof.
  intros Hnone. eqb_cases roomId k.
  - subst. unfold handleDisconnect.
    destruct (streamer_is room sid); simpl; [apply rooms_get_delete_same |].
    destruct (set_has (viewers room) sid); simpl; [| exact Hnone].
    destruct (truthy (streamer room)); simpl.
    + now rewrite rooms_get_mutate_same, Hnone.
    + destruct (Nat.eqb _ 0); simpl; [apply rooms_get_delete_same |].
      now rewrite rooms_get_mutate_same, Hnone.
  - now rewrite handleDisconnect_get_other.
Qed.

Lemma disconnect_loop_cons (sid roomId : string) (room : Room) (rest rooms : Rooms) :
  disconnect_loop sid ((roomId, room) :: rest) rooms =
  (fst (disconnect_loop sid rest (fst (handleDisconnect sid roomId room rooms))),
   snd (handleDisconnect sid roomId room rooms) ++
   snd (disconnect_loop sid rest (fst (handleDisconnect sid roomId room rooms)))).
Proof.
  simpl. destruct (handleDisconnect sid roomId room rooms) as [rooms1 out1]. simpl.
  now destruct (disconnect_loop sid rest rooms1).
Qed.

Lemma disconnect_loop_absent (sid k : string) (pending rooms : Rooms) :
  rooms_get rooms k = None ->
  rooms_get (fst (disconnect_loop sid pending rooms)) k = None.
Proof.
  revert rooms. induction pending as [| [roomId room] rest IH]; intros rooms H;
    [exact H |].
  rewrite disconnect_loop_cons. simpl. apply IH. now apply handleDisconnect_absent.
Qed.


Lemma disconnect_loop_streamer (sid r : string) (room : Room) (pending rooms : Rooms) :
  rooms_get pending r = Some room -> streamer room = Some sid ->
  rooms_get (fst (disconnect_loop sid pending rooms)) r = None /\
  incl (streamer_gone room) (snd (disconnect_loop sid pending rooms)).
Proof.
  revert rooms. induction pending as [| [roomId rm] rest IH]; intros rooms Hget Hs;
    [discriminate |].
  rewrite disconnect_loop_cons. simpl in *.
  eqb_cases roomId r.
  - injection Hget as ->. subst roomId.
    rewrite (handleDisconnect_streamer _ _ _ _ Hs). simpl. split.
    + apply disconnect_loop_absent, rooms_get_delete_same.
    + now apply incl_appl, incl_refl.
  - destruct (IH (fst (handleDisconnect sid roomId rm rooms)) Hget Hs) as [H1 H2].
    split; [exact H1 | now apply incl_appr].
Qed.


(** Every room-membership of [c] is listed by [memberships]. *)
Lemma memberships_nil (c : string) (m : Rooms) :
  memberships c m = [] <->
  forall k room, In (k, room) m -> streamer room <> Some c /\ ~ In c (viewers room).
Proof.
  unfold memberships. induction m as [| [k' v'] m IH]; simpl.
  - split; [intros _ k room [] | reflexivity].
  - split.
    + intros H. apply app_eq_nil in H as [H1 H2].
      intros k room [[= <- <-] | Hin]; [| exact (proj1 IH H2 k room Hin)].
      unfold room_roles in H1. simpl in H1.
      destruct (streamer_is v' c) eqn:E1; [discriminate |].
      destruct (set_has (viewers v') c) eqn:E2; [discriminate |].
      split; [now apply streamer_is_false | now apply set_has_false].
    + intros H. destruct (H k' v' (or_introl eq_refl)) as [H1 H2].
      apply streamer_is_false in H1. apply set_has_false in H2.
      unfold room_roles. simpl. rewrite H1, H2. simpl.
      apply (proj2 IH). intros k room Hin. apply (H k). now right.
Qed.

Lemma disconnect_loop_stranger (sid : string) (pending rooms : Rooms) :
  memberships sid pending = [] ->
  disconnect_loop sid pending rooms = (rooms, []).
Proof.
  rewrite memberships_nil. revert rooms.
  induction pending as [| [roomId room] rest IH]; intros rooms H; [reflexivity |].
  rewrite disconnect_loop_cons.
  destruct (H roomId room (or_introl eq_refl)) as [H1 H2].
  rewrite (handleDisconnect_stranger _ _ _ _ H1 H2). simpl.
  rewrite IH; [reflexivity |]. intros k rm Hin. apply (H k). now right.
Qed.



Lemma leave_room_get_other (sid roomId k : string) (rooms : Rooms) :
  roomId <> k ->
  rooms_get (fst (leave_room sid roomId rooms)) k = rooms_get rooms k.
Proof.
  intros Hne. unfold leave_room.
  destruct (rooms_get rooms roomId) as [room |] eqn:E.
  - rewrite (handleLeaveRoom_handleDisconnect _ _ _ _ E).
    now apply handleDisconnect_get_other.
  - now rewrite handleLeaveRoom_absent.
Qed.

(** C2. When [C] is the streamer of room [r], an explicit leave and a
    disconnect both end with no entry for [r] in the table (so no streamer
    slot either), whatever the viewer set holds, and both send
    [streamer-disconnected] to every member of [r]'s viewer set. *)
Theorem C2_streamer_teardown (rooms : Rooms) (r : string) (room : Room) (C : string) :
  rooms_get rooms r = Some room -> streamer room = Some C ->
  (rooms_get (fst (leave_room C r rooms)) r = None /\
   forall v, In v (viewers room) ->
             In (IoEmit v EvStreamerDisconnected) (snd (leave_room C r rooms))) /\
  (rooms_get (fst (disconnect C rooms)) r = None /\
   forall v, In v (viewers room) ->
             In (IoEmit v EvStreamerDisconnected) (snd (disconnect C rooms))).
Proof.
  intros Hget Hs.
  assert (Hgone : forall v, In v (viewers room) ->
                            In (IoEmit v EvStreamerDisconnected) (streamer_gone room)).
  { intros v Hv. unfold streamer_gone.
    exact (in_map (fun viewerId => IoEmit viewerId EvStreamerDisconnected) _ _ Hv). }
  split.
  - unfold leave_room.
    rewrite (handleLeaveRoom_handleDisconnect _ _ _ _ Hget),
      (handleDisconnect_streamer _ _ _ _ Hs). simpl.
    split; [apply rooms_get_delete_same | exact Hgone].
  - destruct (disconnect_loop_streamer C r room rooms rooms Hget Hs) as [H1 H2].
    split; [exact H1 |]. intros v Hv. apply H2. now apply Hgone.
Qed.

(** C3 (as the code has it). After the streamer of room [r] leaves, by an
    explicit leave or by a disconnect, [r] has no entry in the table, be
    its viewer set empty or not; an explicit leave changes no other
    room's entry. *)
Theorem C3_streamer_leave_deletes (rooms : Rooms) (r : string) (room : Room) (C : string) :
  rooms_get rooms r = Some room -> streamer room = Some C ->
  rooms_get (fst (leave_room C r rooms)) r = None /\
  rooms_get (fst (disconnect C rooms)) r = None /\
  fst (leave_room C r rooms) = rooms_delete rooms r.
Proof.
  intros Hget Hs. repeat split.
  - unfold leave_room.
    rewrite (handleLeaveRoom_handleDisconnect _ _ _ _ Hget),
      (handleDisconnect_streamer _ _ _ _ Hs).
    apply rooms_get_delete_same.
  - exact (proj1 (disconnect_loop_streamer C r room rooms rooms Hget Hs)).
  - unfold leave_room.
    now rewrite (handleLeaveRoom_handleDisconnect _ _ _ _ Hget),
      (handleDisconnect_streamer _ _ _ _ Hs).
Qed.



(** C9. For a connection [C] that is neither the streamer nor a viewer of
    any room, a disconnect and a leave of any room make no transport call
    and return the table as it was. *)
Theorem C9_stranger_noop (rooms : Rooms) (C : string) :
  (forall k room, In (k, room) rooms -> streamer room <> Some C /\ ~ In C (viewers room)) ->
  disconnect C rooms = (rooms, []) /\
  forall r, leave_room C r rooms = (rooms, []).
Proof.
  intros H. split.
  - apply disconnect_loop_stranger. now apply memberships_nil.
  - intros r. unfold leave_room.
    destruct (rooms_get rooms r) as [room |] eqn:E.
    + rewrite (handleLeaveRoom_handleDisconnect _ _ _ _ E).
      destruct (H r room (rooms_get_In _ _ _ E)) as [H1 H2].
      now apply handleDisconnect_stranger.
    + now apply handleLeaveRoom_absent.
Qed.

(** * Repeated joins *)

(** What the table holds under [r] once [join-room] has run for [C]. *)
Lemma join_room_joined (rooms : Rooms) (C r role : string) :
  exists room1,
    rooms_get (fst (join_room C r role rooms)) r = Some room1 /\
    (role = "streamer" -> C <> "" -> exists S, S <> "" /\ streamer room1 = Some S) /\
    (role <> "streamer" -> In C (viewers room1)).
Proof.
  unfold join_room. rewrite ensured_get.
  set (room0 := match rooms_get rooms r with Some room => room | None => mkRoom None [] end).
  pose proof (ensured_get rooms r) as Hget. fold room0 in Hget.
  eqb_cases role "streamer".
  - destruct (truthy (streamer room0)) as [S |] eqn:Et; simpl.
    + exists room0. split; [exact Hget |]. split; [| contradiction].
      intros _ _. exists S. unfold truthy in Et.
      destruct (streamer room0) as [x |]; [| discriminate].
      eqb_cases x ""; [discriminate |]. injection Et as <-. auto.
    + exists (set_streamer C room0). rewrite rooms_get_mutate_same, Hget.
      split; [reflexivity |]. split; [| contradiction].
      intros _ HC. exists C. auto.
  - simpl. exists (add_viewer C room0). rewrite rooms_get_mutate_same, Hget.
    split; [reflexivity |]. split; [contradiction |].
    intros _. simpl. apply set_add_In. now right.
Qed.

(** C4 (as the code has it). A second [join-room] by the same socket for
    the same room and role leaves the table exactly as the first one left
    it, so the viewer set gains no duplicate; but it is not silent.  As
    streamer it is answered with the error message on the socket's own
    connection; as viewer it sends one more [viewer-joined] carrying the
    socket id to the room's streamer, when the room has one. *)
Theorem C4_repeated_join (rooms : Rooms) (C r role : string) :
  reachable rooms -> C <> "" ->
  let rooms1 := fst (join_room C r role rooms) in
  fst (join_room C r role rooms1) = rooms1 /\
  (exists room1,
      rooms_get rooms1 r = Some room1 /\ NoDup (viewers room1) /\
      (role <> "streamer" ->
       notifications (snd (join_room C r role rooms1)) =
         match streamer room1 with
         | Some s => [IoEmit s (EvViewerJoined C)]
         | None => []
         end)) /\
  (role = "streamer" ->
   notifications (snd (join_room C r role rooms1)) =
     [SocketEmit C (EvError error_message)]).
Proof.
  intros Hreach HC rooms1.
  pose proof (join_room_wf C r role rooms HC (reachable_wf _ Hreach)) as Hwf1.
  fold rooms1 in Hwf1.
  destruct (join_room_joined rooms C r role) as [room1 [Hget [Hst Hvw]]].
  fold rooms1 in Hget.
  destruct (rooms_wf_get _ _ _ Hwf1 Hget) as [Hne Hnd].
  eqb_cases role "streamer".
  - subst role. destruct (Hst eq_refl HC) as [S [HS ES]].
    rewrite (join_room_occupied _ _ _ _ C Hget ES HS). simpl.
    split; [reflexivity |]. split; [| reflexivity].
    exists room1. split; [exact Hget |]. split; [exact Hnd |]. congruence.
  - rewrite (join_room_viewer_present _ _ _ _ C E Hget (Hvw E)). simpl.
    split; [reflexivity |]. split; [| congruence].
    exists room1. split; [exact Hget |]. split; [exact Hnd |].
    intros _. rewrite (truthy_wf _ Hne). now destruct (streamer room1).
Qed.

(** C8 (as the code has it). [join-room] checks neither field.  Whatever
    the room code (the empty string included) and whatever the role, the
    table has an entry for the code afterwards.  A role other than
    ["streamer"] is handled exactly like ["viewer"]: the socket is put in
    the viewer set.  A streamer join on a code with no streamer yet takes
    the streamer slot.  The only message ever sent on the caller's own
    socket is the role-conflict error, and only for a join as streamer on
    a room that already had a streamer: nothing is reported for an empty
    room code or an unknown role. *)
Theorem C8_join_unvalidated (rooms : Rooms) (sid roomId role : string) :
  (exists room,
      rooms_get (fst (join_room sid roomId role rooms)) roomId = Some room /\
      (role <> "streamer" -> In sid (viewers room)) /\
      (role = "streamer" ->
       (forall room0, rooms_get rooms roomId = Some room0 -> streamer room0 = None) ->
       streamer room = Some sid)) /\
  (role <> "streamer" ->
   join_room sid roomId role rooms = join_room sid roomId "viewer" rooms) /\
  (forall c ev,
      In (SocketEmit c ev) (snd (join_room sid roomId role rooms)) ->
      c = sid /\ ev = EvError error_message /\ role = "streamer" /\
      exists room0 S,
        rooms_get rooms roomId = Some room0 /\ streamer room0 = Some S /\ S <> "").
Proof.
  assert (Hocc : forall S,
             truthy (streamer match rooms_get rooms roomId with
                              | Some room => room
                              | None => mkRoom None []
                              end) = Some S ->
             exists room0, rooms_get rooms roomId = Some room0 /\
                           streamer room0 = Some S /\ S <> "").
  { intros S. destruct (rooms_get rooms roomId) as [room0 |]; [| discriminate].
    unfold truthy. destruct (streamer room0) as [x |] eqn:Ex; [| discriminate].
    eqb_cases x ""; [discriminate |]. intros [= <-]. now exists room0. }
  split; [| split].
  - unfold join_room. rewrite ensured_get.
    pose proof (ensured_get rooms roomId) as Hget.
    eqb_cases role "streamer".
    + destruct (truthy _) as [S |] eqn:Et; simpl.
      * eexists. split; [exact Hget |]. split; [contradiction |].
        intros _ Hvacant. destruct (Hocc S eq_refl) as [room0 [H0 [HS _]]].
        rewrite (Hvacant room0 H0) in HS. discriminate HS.
      * rewrite rooms_get_mutate_same, Hget. simpl.
        eexists. split; [reflexivity |]. split; [contradiction | reflexivity].
    + simpl. rewrite rooms_get_mutate_same, Hget. simpl.
      eexists. split; [reflexivity |]. split; [| contradiction].
      intros _. simpl. apply set_add_In. now right.
  - intros Hrole. unfold join_room. apply String.eqb_neq in Hrole. now rewrite Hrole.
  - intros c ev. unfold join_room. rewrite ensured_get.
    eqb_cases role "streamer".
    + destruct (truthy _) as [S |] eqn:Et; simpl.
      * intros [H | [H | []]]; [discriminate H |]. injection H as <- <-.
        destruct (Hocc S eq_refl) as [room0 H0].
        split; [reflexivity |]. split; [reflexivity |]. split; [exact E |].
        now exists room0, S.
      * intros [H | H]; [discriminate H |].
        apply in_map_iff in H as [v [H _]]. discriminate H.
    + simpl. intros [H | H]; [discriminate H |].
      destruct (truthy _); [destruct H as [H | []]; discriminate H | destruct H].
Qed.

(** * Counting memberships *)

Lemma room_roles_length (c : string) (room : Room) :
  List.length (room_roles c room) =
  (if streamer_is room c then 1 else 0) + (if set_has (viewers room) c then 1 else 0).
Proof.
  unfold room_roles. rewrite length_app.
  now destruct (streamer_is room c), (set_has (viewers room) c).
Qed.

Lemma memberships_cons (c k : string) (v : Room) (m : Rooms) :
  List.length (memberships c ((k, v) :: m)) =
  List.length (room_roles c v) + List.length (memberships c m).
Proof. unfold memberships. simpl. now rewrite length_app, length_map. Qed.

Lemma memberships_app (c : string) (m1 m2 : Rooms) :
  memberships c (m1 ++ m2) = memberships c m1 ++ memberships c m2.
Proof. unfold memberships. apply flat_map_app. Qed.

Lemma memberships_delete (c k : string) (m : Rooms) :
  List.length (memberships c (rooms_delete m k)) <= List.length (memberships c m).
Proof.
  induction m as [| [k' v'] m IH]; [simpl; lia |].
  rewrite memberships_cons. unfold rooms_delete in *. cbn [filter fst].
  destruct (String.eqb k' k); cbn [negb]; [lia |].
  rewrite memberships_cons. lia.
Qed.

Lemma memberships_mutate (c k : string) (f : Room -> Room) (n : nat) (m : Rooms) :
  (forall v, List.length (room_roles c (f v)) <= List.length (room_roles c v) + n) ->
  List.length (memberships c (rooms_mutate m k f)) <= List.length (memberships c m) + n.
Proof.
  intros Hf. induction m as [| [k' v'] m IH]; [simpl; lia |].
  cbn [rooms_mutate].
  destruct (String.eqb k' k); rewrite !memberships_cons.
  - specialize (Hf v'). lia.
  - lia.
Qed.

Lemma memberships_ensured (c r : string) (rooms : Rooms) :
  memberships c (ensured rooms r) = memberships c rooms.
Proof.
  unfold ensured, rooms_has. destruct (rooms_get rooms r) eqn:E; [reflexivity |].
  rewrite (rooms_set_absent _ _ _ E), memberships_app. simpl.
  now rewrite app_nil_r.
Qed.

Lemma set_has_delete (vs : list string) (sid c : string) :
  set_has (set_delete vs sid) c = true -> set_has vs c = true.
Proof. rewrite !set_has_In, set_delete_In. tauto. Qed.

Lemma set_has_add_other (vs : list string) (sid c : string) :
  c <> sid -> set_has (set_add vs sid) c = set_has vs c.
Proof.
  intros Hne. destruct (set_has vs c) eqn:E.
  - apply set_has_In. apply set_add_In. left. now apply set_has_In.
  - apply set_has_false. rewrite set_add_In. apply set_has_false in E. tauto.
Qed.

Lemma roles_delete_viewer (c sid : string) (room : Room) :
  List.length (room_roles c (delete_viewer sid room)) <= List.length (room_roles c room) + 0.
Proof.
  rewrite !room_roles_length. unfold streamer_is. simpl.
  pose proof (set_has_delete (viewers room) sid c) as H.
  destruct (set_has (set_delete (viewers room) sid) c).
  - rewrite (H eq_refl). lia.
  - destruct (set_has (viewers room) c); lia.
Qed.

Lemma roles_add_viewer (c sid : string) (room : Room) :
  List.length (room_roles c (add_viewer sid room)) <=
  List.length (room_roles c room) + (if String.eqb c sid then 1 else 0).
Proof.
  rewrite !room_roles_length. unfold streamer_is. simpl.
  eqb_cases c sid.
  - destruct (set_has (set_add (viewers room) sid) c), (set_has (viewers room) c); lia.
  - rewrite (set_has_add_other _ _ _ E). lia.
Qed.

Lemma roles_set_streamer (c sid : string) (room : Room) :
  List.length (room_roles c (set_streamer sid room)) <=
  List.length (room_roles c room) + (if String.eqb c sid then 1 else 0).
Proof.
  rewrite !room_roles_length. unfold streamer_is. simpl.
  rewrite (String.eqb_sym c sid).
  destruct (String.eqb sid c); [| lia].
  destruct (streamer room); [destruct (String.eqb _ _) |]; lia.
Qed.

Lemma join_room_count (c sid r role : string) (rooms : Rooms) :
  List.length (memberships c (fst (join_room sid r role rooms))) <=
  List.length (memberships c rooms) + (if String.eqb c sid then 1 else 0).
Proof.
  unfold join_room.
  destruct (rooms_get (ensured rooms r) r) as [room |]; simpl.
  - destruct (String.eqb role "streamer").
    + destruct (truthy (streamer room)); simpl.
      * rewrite memberships_ensured. lia.
      * rewrite <- (memberships_ensured c r rooms).
        apply memberships_mutate. intros v. apply roles_set_streamer.
    + simpl. rewrite <- (memberships_ensured c r rooms).
      apply memberships_mutate. intros v. apply roles_add_viewer.
  - rewrite memberships_ensured. lia.
Qed.

Lemma handleDisconnect_count (c sid roomId : string) (room : Room) (rooms : Rooms) :
  List.length (memberships c (fst (handleDisconnect sid roomId room rooms))) <=
  List.length (memberships c rooms).
Proof.
  pose proof (memberships_mutate c roomId (delete_viewer sid) 0 rooms
                (fun v => roles_delete_viewer c sid v)) as Hm.
  unfold handleDisconnect.
  destruct (streamer_is room sid); simpl; [apply memberships_delete |].
  destruct (set_has (viewers room) sid); simpl; [| lia].
  destruct (truthy (streamer room)); simpl; [lia |].
  destruct (Nat.eqb _ 0); simpl; [| lia].
  pose proof (memberships_delete c roomId (rooms_mutate rooms roomId (delete_viewer sid))).
  lia.
Qed.

Lemma leave_room_count (c sid roomId : string) (rooms : Rooms) :
  List.length (memberships c (fst (leave_room sid roomId rooms))) <=
  List.length (memberships c rooms).
Proof.
  unfold leave_room. destruct (rooms_get rooms roomId) as [room |] eqn:E.
  - rewrite (handleLeaveRoom_handleDisconnect _ _ _ _ E).
    apply handleDisconnect_count.
  - rewrite handleLeaveRoom_absent by exact E. simpl. lia.
Qed.

Lemma disconnect_loop_count (c sid : string) (pending rooms : Rooms) :
  List.length (memberships c (fst (disconnect_loop sid pending rooms))) <=
  List.length (memberships c rooms).
Proof.
  revert rooms. induction pending as [| [roomId room] rest IH]; intros rooms;
    [simpl; lia |].
  rewrite disconnect_loop_cons. cbn [fst].
  specialize (IH (fst (handleDisconnect sid roomId room rooms))).
  pose proof (handleDisconnect_count c sid roomId room rooms). lia.
Qed.

(** A step adds at most one membership, and only to the socket that asked
    to join. *)
Lemma step_count (c : string) (o : op) (rooms : Rooms) :
  List.length (memberships c (fst (step o rooms))) <=
  List.length (memberships c rooms) +
  match o with
  | Join sid _ _ => if String.eqb c sid then 1 else 0
  | _ => 0
  end.
Proof.
  destruct o as [sid roomId role | sid to sig room | sid roomId | sid]; simpl.
  - apply join_room_count.
  - rewrite signal_rooms. lia.
  - pose proof (leave_room_count c sid roomId rooms). lia.
  - pose proof (disconnect_loop_count c sid rooms rooms). unfold disconnect. lia.
Qed.

Lemma memberships_streamer (c r : string) (room : Room) (m : Rooms) :
  In (r, room) m -> streamer room = Some c -> In (r, RStreamer) (memberships c m).
Proof.
  intros Hin Hs. unfold memberships. apply in_flat_map.
  exists (r, room). split; [exact Hin |]. simpl. apply in_map.
  unfold room_roles. apply streamer_is_true in Hs. rewrite Hs. now left.
Qed.

Lemma memberships_viewer (c r : string) (room : Room) (m : Rooms) :
  In (r, room) m -> In c (viewers room) -> In (r, RViewer) (memberships c m).
Proof.
  intros Hin Hv. unfold memberships. apply in_flat_map.
  exists (r, room). split; [exact Hin |]. simpl. apply in_map.
  unfold room_roles. apply set_has_In in Hv. rewrite Hv.
  apply in_or_app. right. now left.
Qed.

Lemma at_most_one {A : Type} (l : list A) (a b : A) :
  List.length l <= 1 -> In a l -> In b l -> a = b.
Proof.
  destruct l as [| x [| y l]]; simpl; intros Hlen Ha Hb.
  - destruct Ha.
  - destruct Ha as [<- | []], Hb as [<- | []]. reflexivity.
  - lia.
Qed.

(** Asking again for a membership already held leaves the table alone. *)
Lemma join_room_repeat (rooms : Rooms) (sid roomId role : string) (room : Room) :
  rooms_get rooms roomId = Some room ->
  (if String.eqb role "streamer" then streamer room = Some sid
   else In sid (viewers room)) ->
  fst (join_room sid roomId role rooms) = rooms.
Proof.
  intros Hget Hheld. eqb_cases role "streamer".
  - unfold join_room. rewrite (ensured_present _ _ _ Hget), Hget.
    subst role. simpl. destruct (truthy (streamer room)); [reflexivity |].
    simpl. apply (rooms_mutate_fixed _ _ _ _ Hget).
    unfold set_streamer. rewrite <- Hheld. now destruct room.
  - now rewrite (join_room_viewer_present _ _ _ _ sid E Hget Hheld).
Qed.

(** C5 (as the code has it). The handlers do not themselves keep a socket
    out of a second room or role; what holds is a guarantee per socket.
    As long as a socket asks to join only while it is in no room (or asks
    again for the room and role it already holds), whatever the other
    sockets request, that socket appears in at most one role of at most
    one room: it is never a streamer and a viewer at once, never in the
    viewer sets of two rooms and never the streamer of two rooms. *)
Theorem C5_single_membership (c : string) (rooms : Rooms) :
  reachable_for c rooms ->
  List.length (memberships c rooms) <= 1 /\
  (forall r1 room1 r2 room2,
      In (r1, room1) rooms -> In (r2, room2) rooms ->
      (streamer room1 = Some c -> ~ In c (viewers room2)) /\
      (In c (viewers room1) -> In c (viewers room2) -> r1 = r2) /\
      (streamer room1 = Some c -> streamer room2 = Some c -> r1 = r2)).
Proof.
  intros Hreach.
  assert (Hone : List.length (memberships c rooms) <= 1).
  { induction Hreach as [| rooms o _ IH Hdisc]; [simpl; lia |].
    pose proof (step_count c o rooms) as Hstep.
    destruct o as [sid roomId role | sid to sig room | sid roomId | sid];
      try lia.
    simpl in Hdisc. revert Hstep.
    eqb_cases c sid; cbv iota; intros Hstep;
      [| apply (Nat.le_trans _ _ _ Hstep); lia].
    subst sid. destruct (Hdisc eq_refl) as [Hfresh | [room [Hget Hheld]]].
    - apply (Nat.le_trans _ _ _ Hstep). rewrite Hfresh. simpl. lia.
    - simpl. now rewrite (join_room_repeat _ _ _ _ _ Hget Hheld). }
  split; [exact Hone |].
  intros r1 room1 r2 room2 H1 H2. repeat split.
  - intros Hs Hv.
    pose proof (at_most_one _ _ _ Hone (memberships_streamer _ _ _ _ H1 Hs)
                  (memberships_viewer _ _ _ _ H2 Hv)) as E.
    discriminate.
  - intros Hv1 Hv2.
    pose proof (at_most_one _ _ _ Hone (memberships_viewer _ _ _ _ H1 Hv1)
                  (memberships_viewer _ _ _ _ H2 Hv2)) as E.
    congruence.
  - intros Hs1 Hs2.
    pose proof (at_most_one _ _ _ Hone (memberships_streamer _ _ _ _ H1 Hs1)
                  (memberships_streamer _ _ _ _ H2 Hs2)) as E.
    congruence.
Qed.

(** * The disconnect scan, room by room *)

Lemma rooms_mutate_app (pre rest : Rooms) (k : string) (v : Room) (f : Room -> Room) :
  ~ In k (map fst pre) ->
  rooms_mutate (pre ++ (k, v) :: rest) k f = pre ++ (k, f v) :: rest.
Proof.
  induction pre as [| [k' v'] pre IH]; simpl; intros Hk.
  - now rewrite String.eqb_refl.
  - eqb_cases k' k; [exfalso; apply Hk; now left |].
    rewrite IH; [reflexivity | tauto].
Qed.

Lemma rooms_delete_app (pre rest : Rooms) (k : string) (v : Room) :
  ~ In k (map fst pre) -> ~ In k (map fst rest) ->
  rooms_delete (pre ++ (k, v) :: rest) k = pre ++ rest.
Proof.
  intros Hpre Hrest. unfold rooms_delete. rewrite filter_app. simpl.
  rewrite String.eqb_refl. simpl.
  fold (rooms_delete pre k). fold (rooms_delete rest k).
  rewrite !rooms_delete_absent; [reflexivity | |]; now apply rooms_get_None.
Qed.

Lemma keys_split (pre rest : Rooms) (k : string) (v : Room) :
  NoDup (map fst (pre ++ (k, v) :: rest)) ->
  ~ In k (map fst pre) /\ ~ In k (map fst rest) /\ NoDup (map fst (pre ++ rest)).
Proof.
  rewrite !map_app. simpl. intros H.
  pose proof (NoDup_remove_1 _ _ _ H) as H1.
  pose proof (NoDup_remove_2 _ _ _ H) as H2.
  rewrite in_app_iff in H2. tauto.
Qed.

Lemma handleDisconnect_notices (sid roomId : string) (room : Room) (rooms : Rooms) :
  snd (handleDisconnect sid roomId room rooms) = room_notices sid room.
Proof.
  unfold handleDisconnect, room_notices.
  destruct (streamer_is room sid); [reflexivity |].
  destruct (set_has (viewers room) sid); [| reflexivity].
  destruct (truthy (streamer room)); [reflexivity |].
  now destruct (Nat.eqb _ 0).
Qed.

Lemma handleDisconnect_sweep (sid k : string) (room : Room) (pre rest : Rooms) :
  NoDup (map fst (pre ++ (k, room) :: rest)) ->
  fst (handleDisconnect sid k room (pre ++ (k, room) :: rest)) =
  pre ++ sweep_room sid (k, room) ++ rest.
Proof.
  intros Hnd. destruct (keys_split _ _ _ _ Hnd) as [Hpre [Hrest _]].
  unfold handleDisconnect, sweep_room. simpl.
  destruct (streamer_is room sid); simpl; [now apply rooms_delete_app |].
  destruct (set_has (viewers room) sid); simpl; [| reflexivity].
  rewrite (rooms_mutate_app _ _ _ _ _ Hpre).
  destruct (truthy (streamer room)); simpl; [reflexivity |].
  destruct (set_delete (viewers room) sid) eqn:E; simpl; [| reflexivity].
  now apply rooms_delete_app.
Qed.

Lemma sweep_room_cases (sid k : string) (room : Room) :
  sweep_room sid (k, room) = [] \/
  exists room', sweep_room sid (k, room) = [(k, room')].
Proof.
  unfold sweep_room. simpl.
  destruct (streamer_is room sid); [now left |].
  destruct (set_has (viewers room) sid); [| right; now exists room].
  destruct (truthy _); [right; now exists (delete_viewer sid room) |].
  destruct (set_delete _ _); [now left | right; now exists (delete_viewer sid room)].
Qed.

Lemma disconnect_loop_sweep (sid : string) (pending pre : Rooms) :
  NoDup (map fst (pre ++ pending)) ->
  disconnect_loop sid pending (pre ++ pending) =
  (pre ++ sweep sid pending, flat_map (fun kv => room_notices sid (snd kv)) pending).
Proof.
  revert pre. induction pending as [| [k room] rest IH]; intros pre Hnd.
  - simpl. now rewrite !app_nil_r.
  - rewrite disconnect_loop_cons, handleDisconnect_notices,
      (handleDisconnect_sweep _ _ _ _ _ Hnd).
    rewrite app_assoc.
    assert (Hnd' : NoDup (map fst ((pre ++ sweep_room sid (k, room)) ++ rest))).
    { destruct (sweep_room_cases sid k room) as [-> | [room' ->]].
      - rewrite app_nil_r. apply (keys_split _ _ _ _ Hnd).
      - rewrite <- app_assoc. rewrite map_app in *. simpl in *. exact Hnd. }
    rewrite (IH _ Hnd'). simpl. now rewrite <- !app_assoc.
Qed.

Lemma disconnect_loop_notices (sid : string) (pending rooms : Rooms) :
  snd (disconnect_loop sid pending rooms) =
  flat_map (fun kv => room_notices sid (snd kv)) pending.
Proof.
  revert rooms. induction pending as [| [k room] rest IH]; intros rooms;
    [reflexivity |].
  rewrite disconnect_loop_cons, handleDisconnect_notices. simpl. now rewrite IH.
Qed.

Lemma disconnect_sweep (sid : string) (rooms : Rooms) :
  NoDup (map fst rooms) -> fst (disconnect sid rooms) = sweep sid rooms.
Proof.
  intros Hnd. unfold disconnect.
  pose proof (disconnect_loop_sweep sid rooms [] Hnd) as H. simpl in H.
  now rewrite H.
Qed.

Lemma sweep_room_stranger (sid : string) (kv : string * Room) :
  ~ member sid (snd kv) ->
  sweep_room sid kv = [kv] /\ room_notices sid (snd kv) = [].
Proof.
  unfold member, sweep_room, room_notices. intros H.
  assert (H1 : streamer_is (snd kv) sid = false) by (apply streamer_is_false; tauto).
  assert (H2 : set_has (viewers (snd kv)) sid = false) by (apply set_has_false; tauto).
  now rewrite H1, H2.
Qed.

Lemma sweep_strangers (sid : string) (l : Rooms) :
  (forall kv, In kv l -> ~ member sid (snd kv)) ->
  sweep sid l = l /\ flat_map (fun kv => room_notices sid (snd kv)) l = [].
Proof.
  unfold sweep. induction l as [| kv l IH]; intros H; [now split |].
  destruct (sweep_room_stranger sid kv (H kv (or_introl eq_refl))) as [H1 H2].
  destruct IH as [H3 H4]; [intros kv' Hin; apply H; now right |].
  simpl. now rewrite H1, H2, H3, H4.
Qed.

Lemma sweep_room_clean (sid : string) (kv kv' : string * Room) :
  In kv' (sweep_room sid kv) -> ~ member sid (snd kv').
Proof.
  unfold sweep_room, member.
  destruct (streamer_is (snd kv) sid) eqn:E1; [intros [] |].
  apply streamer_is_false in E1.
  assert (Hdel : ~ In sid (viewers (delete_viewer sid (snd kv)))).
  { simpl. rewrite set_delete_In. tauto. }
  destruct (set_has (viewers (snd kv)) sid) eqn:E2.
  - destruct (truthy _); [| destruct (set_delete (viewers (snd kv)) sid) eqn:E3];
      simpl; try tauto; intros [<- | []]; simpl in *; tauto.
  - apply set_has_false in E2. intros [<- | []]. tauto.
Qed.

Lemma sweep_clean (sid : string) (rooms : Rooms) (kv : string * Room) :
  In kv (sweep sid rooms) -> ~ member sid (snd kv).
Proof.
  unfold sweep. rewrite in_flat_map. intros [kv0 [_ Hin]].
  now apply sweep_room_clean in Hin.
Qed.

Lemma rooms_get_split (m : Rooms) (k : string) (v : Room) :
  rooms_get m k = Some v ->
  exists pre rest, m = pre ++ (k, v) :: rest /\ ~ In k (map fst pre).
Proof.
  induction m as [| [k' v'] m IH]; simpl; [discriminate |].
  eqb_cases k' k.
  - intros [= ->]. subst. exists [], m. split; [reflexivity | intros []].
  - intros H. destruct (IH H) as [pre [rest [-> Hpre]]].
    exists ((k', v') :: pre), rest. split; [reflexivity |].
    simpl. intuition congruence.
Qed.

Lemma rooms_get_app (a b : Rooms) (k : string) :
  rooms_get (a ++ b) k =
  match rooms_get a k with
  | Some v => Some v
  | None => rooms_get b k
  end.
Proof.
  induction a as [| [k' v'] a IH]; simpl; [reflexivity |].
  now destruct (String.eqb k' k).
Qed.

Lemma sweep_absent (sid : string) (l : Rooms) (k : string) :
  rooms_get l k = None -> rooms_get (sweep sid l) k = None.
Proof.
  unfold sweep. induction l as [| [k' v'] l IH]; simpl; [reflexivity |].
  eqb_cases k' k; [discriminate |]. intros H.
  rewrite rooms_get_app, (IH H).
  destruct (sweep_room_cases sid k' v') as [-> | [room' ->]]; [reflexivity |].
  simpl. apply String.eqb_neq in E. now rewrite E.
Qed.

(** What the scan leaves under one room code depends on that room alone. *)
Lemma rooms_get_sweep (sid r : string) (room : Room) (rooms : Rooms) :
  NoDup (map fst rooms) -> rooms_get rooms r = Some room ->
  rooms_get (sweep sid rooms) r = rooms_get (sweep_room sid (r, room)) r.
Proof.
  intros Hnd Hget.
  destruct (rooms_get_split _ _ _ Hget) as [pre [rest [-> Hpre]]].
  destruct (keys_split _ _ _ _ Hnd) as [_ [Hrest _]].
  unfold sweep. rewrite flat_map_app. simpl. rewrite !rooms_get_app.
  fold (sweep sid pre). fold (sweep sid rest).
  rewrite (sweep_absent sid pre r) by now apply rooms_get_None.
  rewrite (sweep_absent sid rest r) by now apply rooms_get_None.
  now destruct (rooms_get (sweep_room sid (r, room)) r).
Qed.

(** * No empty room is kept *)

Lemma rooms_mutate_absent (m : Rooms) (k : string) (f : Room -> Room) :
  rooms_get m k = None -> rooms_mutate m k f = m.
Proof.
  induction m as [| [k' v'] m IH]; simpl; [reflexivity |].
  destruct (String.eqb k' k); [discriminate |].
  intros H. now rewrite IH.
Qed.

Lemma rooms_mutate_Forall (P : Room -> Prop) (m : Rooms) (k : string) (f : Room -> Room) :
  Forall (fun kv => P (snd kv)) m ->
  (forall v, rooms_get m k = Some v -> P (f v)) ->
  Forall (fun kv => P (snd kv)) (rooms_mutate m k f).
Proof.
  intros Hall Hf. destruct (rooms_get m k) as [v |] eqn:E.
  - destruct (rooms_get_split _ _ _ E) as [pre [rest [-> Hpre]]].
    rewrite (rooms_mutate_app _ _ _ _ _ Hpre).
    apply Forall_app in Hall as [H1 H2]. inversion H2; subst.
    apply Forall_app. split; [exact H1 |]. constructor; [now apply Hf | assumption].
  - now rewrite rooms_mutate_absent.
Qed.

Lemma rooms_delete_Forall (P : string * Room -> Prop) (m : Rooms) (k : string) :
  Forall P m -> Forall P (rooms_delete m k).
Proof.
  rewrite !Forall_forall. intros H kv Hin. apply filter_In in Hin. now apply H.
Qed.

Lemma join_room_keeps_occupied (sid r role : string) (rooms : Rooms) :
  Forall (fun kv => occupied (snd kv)) rooms ->
  Forall (fun kv => occupied (snd kv)) (fst (join_room sid r role rooms)).
Proof.
  intros Hocc. unfold join_room. rewrite ensured_get.
  assert (Hmut : forall f, (forall v, occupied (f v)) ->
            Forall (fun kv => occupied (snd kv)) (rooms_mutate (ensured rooms r) r f)).
  { intros f Hf. unfold ensured, rooms_has.
    destruct (rooms_get rooms r) as [room |] eqn:E.
    - apply rooms_mutate_Forall; auto.
    - rewrite (rooms_set_absent _ _ _ E), rooms_mutate_app
        by now apply rooms_get_None.
      apply Forall_app. split; [exact Hocc |]. constructor; [apply Hf | constructor]. }
  destruct (String.eqb role "streamer").
  - destruct (truthy _) eqn:Et; simpl.
    + unfold ensured, rooms_has.
      destruct (rooms_get rooms r); [exact Hocc | discriminate Et].
    + apply Hmut. intros v. left. simpl. discriminate.
  - simpl. apply Hmut. intros v. right. simpl. unfold set_add.
    destruct (set_has (viewers v) sid) eqn:E.
    + apply set_has_In in E. intros Hnil. rewrite Hnil in E. destruct E.
    + intros Hnil. now apply app_eq_nil in Hnil as [_ Hnil].
Qed.

Lemma truthy_Some (s : option string) (x : string) :
  truthy s = Some x -> s = Some x.
Proof.
  unfold truthy. destruct s as [y |]; [| discriminate].
  destruct (String.eqb y ""); [discriminate | trivial].
Qed.

Lemma handleDisconnect_keeps_occupied (sid k : string) (room : Room) (rooms : Rooms) :
  rooms_get rooms k = Some room ->
  Forall (fun kv => occupied (snd kv)) rooms ->
  Forall (fun kv => occupied (snd kv)) (fst (handleDisconnect sid k room rooms)).
Proof.
  intros Hget Hocc. unfold handleDisconnect.
  destruct (streamer_is room sid); simpl; [now apply rooms_delete_Forall |].
  destruct (set_has (viewers room) sid); simpl; [| exact Hocc].
  destruct (truthy (streamer room)) as [s |] eqn:Et; simpl.
  - apply rooms_mutate_Forall; [exact Hocc |].
    intros v Hv. left. simpl. apply truthy_Some in Et. congruence.
  - destruct (set_delete (viewers room) sid) as [| x l] eqn:Ed; simpl.
    + destruct (rooms_get_split _ _ _ Hget) as [pre [rest [-> Hpre]]].
      rewrite (rooms_mutate_app _ _ _ _ _ Hpre).
      rewrite Forall_forall in *. intros kv Hin.
      apply filter_In in Hin as [Hin Hk]. apply Hocc.
      apply in_app_iff in Hin as [Hin | [<- | Hin]].
      * apply in_or_app. now left.
      * simpl in Hk. now rewrite String.eqb_refl in Hk.
      * apply in_or_app. right. now right.
    + apply rooms_mutate_Forall; [exact Hocc |].
      intros v Hv. right. simpl. assert (v = room) by congruence. subst.
      rewrite Ed. discriminate.
Qed.

Lemma sweep_keeps_occupied (sid : string) (rooms : Rooms) :
  Forall (fun kv => occupied (snd kv)) rooms ->
  Forall (fun kv => occupied (snd kv)) (sweep sid rooms).
Proof.
  unfold sweep. induction 1 as [| [k room] l Hocc _ IH]; simpl; [constructor |].
  apply Forall_app. split; [| exact IH].
  unfold sweep_room. simpl in *.
  destruct (streamer_is room sid); [constructor |].
  destruct (set_has (viewers room) sid); [| now constructor].
  destruct (truthy (streamer room)) as [s |] eqn:Et.
  - constructor; [| constructor]. left. simpl.
    apply truthy_Some in Et. congruence.
  - destruct (set_delete (viewers room) sid) eqn:Ed; constructor; [| constructor].
    right. simpl. rewrite Ed. discriminate.
Qed.

Lemma step_keeps_occupied (o : op) (rooms : Rooms) :
  NoDup (map fst rooms) ->
  Forall (fun kv => occupied (snd kv)) rooms ->
  Forall (fun kv => occupied (snd kv)) (fst (step o rooms)).
Proof.
  intros Hnd Hocc.
  destruct o as [sid roomId role | sid to sig room | sid roomId | sid]; simpl.
  - now apply join_room_keeps_occupied.
  - now rewrite signal_rooms.
  - unfold leave_room. destruct (rooms_get rooms roomId) as [room |] eqn:E.
    + rewrite (handleLeaveRoom_handleDisconnect _ _ _ _ E).
      now apply handleDisconnect_keeps_occupied.
    + now rewrite handleLeaveRoom_absent.
  - rewrite (disconnect_sweep _ _ Hnd). now apply sweep_keeps_occupied.
Qed.

Lemma reachable_occupied (rooms : Rooms) :
  reachable rooms -> Forall (fun kv => occupied (snd kv)) rooms.
Proof.
  induction 1 as [| rooms o Hr IH Hs]; [constructor |].
  apply step_keeps_occupied; [| exact IH].
  exact (proj1 (reachable_wf _ Hr)).
Qed.

(** X1. The table never keeps an empty room: in every table the server
    can reach, each entry has a streamer or at least one viewer. *)
Theorem X1_no_empty_room (rooms : Rooms) :
  reachable rooms ->
  forall k room, In (k, room) rooms -> streamer room <> None \/ viewers room <> [].
Proof.
  intros Hreach k room Hin.
  pose proof (reachable_occupied _ Hreach) as Hocc.
  rewrite Forall_forall in Hocc. exact (Hocc _ Hin).
Qed.

Lemma disconnect_closed_form (sid : string) (rooms : Rooms) :
  NoDup (map fst rooms) ->
  disconnect sid rooms =
  (sweep sid rooms, flat_map (fun kv => room_notices sid (snd kv)) rooms).
Proof.
  intros Hnd. unfold disconnect.
  pose proof (disconnect_loop_sweep sid rooms [] Hnd) as H. simpl in H. exact H.
Qed.

(** X2. On a table with pairwise distinct room codes the disconnect scan
    treats every room on its own: the table it returns is obtained entry
    by entry (the entry is dropped when the socket was its streamer or its
    last occupant, loses the socket when it was one of its viewers, and
    is kept as it is otherwise), and the messages sent are those of each
    room, in table order. *)
Theorem X2_disconnect_room_by_room (sid : string) (rooms : Rooms) :
  NoDup (map fst rooms) ->
  disconnect sid rooms =
  (sweep sid rooms, flat_map (fun kv => room_notices sid (snd kv)) rooms).
Proof.
  intros Hnd. unfold disconnect.
  pose proof (disconnect_loop_sweep sid rooms [] Hnd) as Hscan.
  simpl in Hscan. exact Hscan.
Qed.

(** X3. After a disconnect the socket is left in no room: no entry of the
    resulting table has it as streamer or in its viewer set, however many
    rooms and roles it held before. *)
Theorem X3_disconnect_clears_memberships (sid : string) (rooms : Rooms) :
  NoDup (map fst rooms) ->
  forall k room, In (k, room) (fst (disconnect sid rooms)) ->
                 streamer room <> Some sid /\ ~ In sid (viewers room).
Proof.
  intros Hnd k room Hin. rewrite (disconnect_sweep _ _ Hnd) in Hin.
  apply sweep_clean in Hin. unfold member in Hin. simpl in Hin. tauto.
Qed.

Lemma leave_room_stranger (sid r : string) (rooms : Rooms) :
  (forall room, rooms_get rooms r = Some room -> ~ member sid room) ->
  leave_room sid r rooms = (rooms, []).
Proof.
  intros H. unfold leave_room. destruct (rooms_get rooms r) as [room |] eqn:E.
  - rewrite (handleLeaveRoom_handleDisconnect _ _ _ _ E).
    specialize (H room eq_refl). unfold member in H.
    apply handleDisconnect_stranger; tauto.
  - now apply handleLeaveRoom_absent.
Qed.

Lemma leave_room_clean (sid r : string) (rooms : Rooms) (room' : Room) :
  rooms_get (fst (leave_room sid r rooms)) r = Some room' -> ~ member sid room'.
Proof.
  unfold leave_room. destruct (rooms_get rooms r) as [room |] eqn:E.
  - rewrite (handleLeaveRoom_handleDisconnect _ _ _ _ E). unfold handleDisconnect.
    destruct (streamer_is room sid) eqn:E1; simpl;
      [now rewrite rooms_get_delete_same |].
    apply streamer_is_false in E1.
    assert (Hdel : rooms_get (rooms_mutate rooms r (delete_viewer sid)) r = Some room' ->
                   ~ member sid room').
    { rewrite rooms_get_mutate_same, E. simpl. intros [= <-]. unfold member. simpl.
      rewrite set_delete_In. tauto. }
    destruct (set_has (viewers room) sid) eqn:E2; simpl.
    + destruct (truthy _); simpl; [exact Hdel |].
      destruct (Nat.eqb _ 0); simpl; [now rewrite rooms_get_delete_same | exact Hdel].
    + apply set_has_false in E2. rewrite E. intros [= <-]. unfold member. tauto.
  - rewrite handleLeaveRoom_absent by exact E. simpl. now rewrite E.
Qed.

(** X4. Teardown can be repeated safely: a second leave of the same room
    by the same socket, and (on a table with distinct room codes) a second
    disconnect scan for the same socket, change nothing and send nothing. *)
Theorem X4_teardown_idempotent (sid : string) (rooms : Rooms) :
  NoDup (map fst rooms) ->
  disconnect sid (fst (disconnect sid rooms)) = (fst (disconnect sid rooms), []) /\
  forall r, leave_room sid r (fst (leave_room sid r rooms)) =
            (fst (leave_room sid r rooms), []).
Proof.
  intros Hnd. split.
  - apply disconnect_loop_stranger. apply memberships_nil.
    intros k room Hin. rewrite (disconnect_sweep _ _ Hnd) in Hin.
    apply sweep_clean in Hin. unfold member in Hin. simpl in Hin. tauto.
  - intros r. apply leave_room_stranger. intros room'. apply leave_room_clean.
Qed.

(** X5. For a socket that is in no room other than [r], the disconnect
    scan and an explicit leave of [r] are the same operation: same
    resulting table and same messages. *)
Theorem X5_disconnect_is_leave (sid r : string) (rooms : Rooms) :
  NoDup (map fst rooms) ->
  (forall k room, In (k, room) rooms -> k <> r ->
                  streamer room <> Some sid /\ ~ In sid (viewers room)) ->
  disconnect sid rooms = leave_room sid r rooms.
Proof.
  intros Hnd Hother. rewrite (disconnect_closed_form sid rooms Hnd).
  unfold leave_room. destruct (rooms_get rooms r) as [room |] eqn:E.
  - rewrite (handleLeaveRoom_handleDisconnect _ _ _ _ E).
    destruct (rooms_get_split _ _ _ E) as [pre [rest [-> Hpre]]].
    destruct (keys_split _ _ _ _ Hnd) as [_ [Hrest _]].
    assert (Hstr : forall l, (forall kv, In kv l -> In kv (pre ++ (r, room) :: rest)) ->
                             ~ In r (map fst l) ->
                             forall kv, In kv l -> ~ member sid (snd kv)).
    { intros l Hsub Hr [k v] Hin. unfold member. simpl.
      assert (Hk : k <> r).
      { intros ->. apply Hr. change r with (fst (r, v)). now apply in_map. }
      destruct (Hother k v (Hsub _ Hin) Hk). tauto. }
    destruct (sweep_strangers sid pre) as [P1 P2].
    { apply Hstr; [| exact Hpre]. intros kv Hin. apply in_or_app. now left. }
    destruct (sweep_strangers sid rest) as [R1 R2].
    { apply Hstr; [| exact Hrest]. intros kv Hin. apply in_or_app. right. now right. }
    rewrite (surjective_pairing (handleDisconnect sid r room _)).
    rewrite (handleDisconnect_sweep _ _ _ _ _ Hnd), handleDisconnect_notices.
    unfold sweep in *. rewrite !flat_map_app. simpl.
    now rewrite P1, P2, R1, R2, app_nil_r.
  - rewrite handleLeaveRoom_absent by exact E.
    destruct (sweep_strangers sid rooms) as [S1 S2]; [| now rewrite S1, S2].
    intros [k v] Hin. unfold member. simpl.
    assert (Hk : k <> r).
    { intros ->. apply rooms_get_None in E. apply E.
      change r with (fst (r, v)). now apply in_map. }
    destruct (Hother k v Hin Hk). tauto.
Qed.

(** * Successful joins *)

Lemma ensured_get_other (rooms : Rooms) (r k : string) :
  r <> k -> rooms_get (ensured rooms r) k = rooms_get rooms k.
Proof.
  intros Hne. unfold ensured. destruct (rooms_has rooms r); [reflexivity |].
  now apply rooms_get_set_other.
Qed.

Lemma join_room_get_other (sid r role k : string) (rooms : Rooms) :
  r <> k -> rooms_get (fst (join_room sid r role rooms)) k = rooms_get rooms k.
Proof.
  intros Hne. unfold join_room.
  destruct (rooms_get (ensured rooms r) r) as [room |]; simpl;
    [| now apply ensured_get_other].
  destruct (String.eqb role "streamer"); [destruct (truthy _) |]; simpl;
    try rewrite rooms_get_mutate_other by exact Hne; now apply ensured_get_other.
Qed.

(** X6. A join as streamer on a room that has no streamer (a room code
    not yet in the table included) is accepted: the socket takes the
    streamer slot, the viewer set is kept as it was, and after the
    [socket.join] call the only messages are one [streamer-joined] to each
    waiting viewer, in the order in which they joined.  The new streamer
    itself is told nothing about the viewers already waiting. *)
Theorem X6_join_streamer_vacant (sid r : string) (rooms : Rooms) :
  (forall room, rooms_get rooms r = Some room -> streamer room = None) ->
  let waiting :=
    match rooms_get rooms r with
    | Some room => viewers room
    | None => []
    end in
  rooms_get (fst (join_room sid r "streamer" rooms)) r = Some (mkRoom (Some sid) waiting) /\
  snd (join_room sid r "streamer" rooms) =
    SocketJoin sid r :: map (fun v => IoEmit v EvStreamerJoined) waiting.
Proof.
  intros Hvacant waiting. unfold join_room. rewrite ensured_get. simpl.
  pose proof (ensured_get rooms r) as Hget. subst waiting.
  destruct (rooms_get rooms r) as [room |] eqn:E.
  - rewrite (Hvacant room eq_refl). simpl.
    rewrite rooms_get_mutate_same, Hget. now split.
  - simpl. rewrite rooms_get_mutate_same, Hget. now split.
Qed.

(** X7. A join with any role other than ["streamer"] always succeeds: the
    socket is in the room's viewer set afterwards (appended last when it
    was not there yet), the streamer slot is untouched, and after the
    [socket.join] call the only message is one [viewer-joined] carrying
    the socket id to the room's streamer, when the room has one. *)
Theorem X7_join_viewer (sid r role : string) (rooms : Rooms) :
  reachable rooms -> role <> "streamer" ->
  let before :=
    match rooms_get rooms r with
    | Some room => room
    | None => mkRoom None []
    end in
  rooms_get (fst (join_room sid r role rooms)) r =
    Some (mkRoom (streamer before) (set_add (viewers before) sid)) /\
  snd (join_room sid r role rooms) =
    SocketJoin sid r ::
      match streamer before with
      | Some s => [IoEmit s (EvViewerJoined sid)]
      | None => []
      end /\
  (~ In sid (viewers before) -> set_add (viewers before) sid = viewers before ++ [sid]).
Proof.
  intros Hreach Hrole before.
  assert (Hne : streamer before <> Some "").
  { subst before. destruct (rooms_get rooms r) as [room |] eqn:E; [| discriminate].
    exact (proj1 (rooms_wf_get _ _ _ (reachable_wf _ Hreach) E)). }
  unfold join_room. rewrite ensured_get. fold before.
  apply String.eqb_neq in Hrole. rewrite Hrole. simpl.
  rewrite rooms_get_mutate_same, ensured_get. fold before.
  rewrite (truthy_wf _ Hne). split; [reflexivity |]. split; [reflexivity |].
  intros Hnew. apply set_has_false in Hnew. unfold set_add. now rewrite Hnew.
Qed.

(** X8. Requests about one room never touch another: a join or a leave
    for room [r] leaves the entry of every other room code exactly as it
    was, and a signal leaves the whole table as it was. *)
Theorem X8_other_rooms_untouched
    (sid r role k to room : string) (sig : Payload) (rooms : Rooms) :
  r <> k ->
  rooms_get (fst (join_room sid r role rooms)) k = rooms_get rooms k /\
  rooms_get (fst (leave_room sid r rooms)) k = rooms_get rooms k /\
  fst (signal sid to sig room rooms) = rooms.
Proof.
  intros Hne. split; [now apply join_room_get_other |].
  split; [now apply leave_room_get_other | apply signal_rooms].
Qed.

(** * Who can change a membership *)

Lemma sweep_room_get (sid r : string) (room : Room) :
  rooms_get (sweep_room sid (r, room)) r =
  if streamer_is room sid then None
  else if set_has (viewers room) sid then
    match truthy (streamer room), set_delete (viewers room) sid with
    | None, [] => None
    | _, _ => Some (delete_viewer sid room)
    end
  else Some room.
Proof.
  unfold sweep_room. simpl.
  destruct (streamer_is room sid); [reflexivity |].
  destruct (set_has (viewers room) sid); simpl; [| now rewrite String.eqb_refl].
  destruct (truthy _); [simpl; now rewrite String.eqb_refl |].
  destruct (set_delete _ _); simpl; [reflexivity | now rewrite String.eqb_refl].
Qed.

(** Under one room code both teardown paths leave what the room-by-room
    description says. *)
Lemma teardown_get (sid r : string) (room : Room) (rooms : Rooms) :
  NoDup (map fst rooms) -> rooms_get rooms r = Some room ->
  rooms_get (fst (leave_room sid r rooms)) r = rooms_get (sweep_room sid (r, room)) r /\
  rooms_get (fst (disconnect sid rooms)) r = rooms_get (sweep_room sid (r, room)) r.
Proof.
  intros Hnd Hget. split.
  - unfold leave_room. rewrite (handleLeaveRoom_handleDisconnect _ _ _ _ Hget).
    destruct (rooms_get_split _ _ _ Hget) as [pre [rest [-> Hpre]]].
    destruct (keys_split _ _ _ _ Hnd) as [_ [Hrest _]].
    rewrite (handleDisconnect_sweep _ _ _ _ _ Hnd), !rooms_get_app.
    apply rooms_get_None in Hpre, Hrest. rewrite Hpre, Hrest.
    now destruct (rooms_get (sweep_room sid (r, room)) r).
  - rewrite (disconnect_sweep _ _ Hnd). now apply rooms_get_sweep.
Qed.

Lemma sweep_room_keeps_streamer (sid r S : string) (room : Room) :
  streamer room = Some S -> S <> "" -> sid <> S ->
  exists room',
    rooms_get (sweep_room sid (r, room)) r = Some room' /\ streamer room' = Some S.
Proof.
  intros Hs Hne Hsid. rewrite sweep_room_get.
  assert (E1 : streamer_is room sid = false).
  { apply streamer_is_false. congruence. }
  rewrite E1, truthy_wf by (rewrite Hs; congruence). rewrite Hs.
  destruct (set_has (viewers room) sid).
  - exists (delete_viewer sid room). now split.
  - exists room. now split.
Qed.

Lemma sweep_room_keeps_viewer (sid r V : string) (room : Room) :
  In V (viewers room) -> sid <> V ->
  (exists room',
      rooms_get (sweep_room sid (r, room)) r = Some room' /\ In V (viewers room')) \/
  (streamer room = Some sid /\ rooms_get (sweep_room sid (r, room)) r = None).
Proof.
  intros HV Hsid. rewrite sweep_room_get.
  destruct (streamer_is room sid) eqn:E1.
  - right. split; [now apply streamer_is_true | reflexivity].
  - left. assert (Hstay : In V (set_delete (viewers room) sid)).
    { apply set_delete_In. split; [exact HV | congruence]. }
    destruct (set_has (viewers room) sid); [| now exists room].
    exists (delete_viewer sid room).
    destruct (truthy _); [now split |].
    destruct (set_delete (viewers room) sid) eqn:Ed; [destruct Hstay |].
    split; [reflexivity |]. simpl. now rewrite Ed.
Qed.

(** X9. Only the streamer can give up the streamer slot: while [S] is the
    streamer of room [r], no request arriving on another socket (a join
    with any role, a signal, a leave, a disconnect) removes the room or
    changes its streamer. *)
Theorem X9_streamer_stays (rooms : Rooms) (r : string) (room : Room) (S : string) (o : op) :
  reachable rooms ->
  rooms_get rooms r = Some room -> streamer room = Some S -> op_sid o <> S ->
  exists room',
    rooms_get (fst (step o rooms)) r = Some room' /\ streamer room' = Some S.
Proof.
  intros Hreach Hget Hs Hsid.
  pose proof (reachable_wf _ Hreach) as Hwf. destruct Hwf as [Hnd Hrooms].
  assert (Hne : S <> "").
  { intros ->. now destruct (rooms_wf_get _ _ _ (conj Hnd Hrooms) Hget). }
  destruct o as [sid r' role | sid to sig room0 | sid r' | sid]; simpl in *.
  - eqb_cases r' r.
    + subst r'. unfold join_room. rewrite (ensured_present _ _ _ Hget), Hget.
      destruct (String.eqb role "streamer").
      * rewrite Hs. simpl. apply String.eqb_neq in Hne. rewrite Hne. simpl.
        now exists room.
      * simpl. rewrite rooms_get_mutate_same, Hget. simpl.
        now exists (add_viewer sid room).
    + rewrite join_room_get_other by exact E. now exists room.
  - rewrite signal_rooms. now exists room.
  - eqb_cases r' r.
    + subst r'. rewrite (proj1 (teardown_get sid r room rooms Hnd Hget)).
      now apply sweep_room_keeps_streamer.
    + rewrite leave_room_get_other by exact E. now exists room.
  - rewrite (proj2 (teardown_get sid r room rooms Hnd Hget)).
    now apply sweep_room_keeps_streamer.
Qed.

(** X10. A viewer loses its place only by its own request or when the
    room's streamer goes: while [V] is in the viewer set of room [r], a
    request arriving on another socket either leaves [V] in [r]'s viewer
    set, or comes from [r]'s streamer and removes the room. *)
Theorem X10_viewer_stays (rooms : Rooms) (r : string) (room : Room) (V : string) (o : op) :
  reachable rooms ->
  rooms_get rooms r = Some room -> In V (viewers room) -> op_sid o <> V ->
  (exists room',
      rooms_get (fst (step o rooms)) r = Some room' /\ In V (viewers room')) \/
  (streamer room = Some (op_sid o) /\ rooms_get (fst (step o rooms)) r = None).
Proof.
  intros Hreach Hget HV Hsid.
  pose proof (proj1 (reachable_wf _ Hreach)) as Hnd.
  destruct o as [sid r' role | sid to sig room0 | sid r' | sid]; simpl in *.
  - left. eqb_cases r' r.
    + subst r'. unfold join_room. rewrite (ensured_present _ _ _ Hget), Hget.
      destruct (String.eqb role "streamer").
      * destruct (truthy _); simpl; [now exists room |].
        rewrite rooms_get_mutate_same, Hget. simpl.
        now exists (set_streamer sid room).
      * simpl. rewrite rooms_get_mutate_same, Hget. simpl.
        exists (add_viewer sid room). split; [reflexivity |].
        simpl. apply set_add_In. now left.
    + rewrite join_room_get_other by exact E. now exists room.
  - left. rewrite signal_rooms. now exists room.
  - eqb_cases r' r.
    + subst r'. rewrite (proj1 (teardown_get sid r room rooms Hnd Hget)).
      now apply sweep_room_keeps_viewer.
    + left. rewrite leave_room_get_other by exact E. now exists room.
  - rewrite (proj2 (teardown_get sid r room rooms Hnd Hget)).
    now apply sweep_room_keeps_viewer.
Qed.

(** * Whom the handlers address *)

Lemma room_notices_targets (sid : string) (room : Room) (c : call) :
  In c (room_notices sid room) ->
  exists target ev,
    c = IoEmit target ev /\ member sid room /\ member target room.
Proof.
  unfold room_notices, member.
  destruct (streamer_is room sid) eqn:E1.
  - apply streamer_is_true in E1. unfold streamer_gone.
    intros Hin. apply in_map_iff in Hin as [v [<- Hv]].
    exists v, EvStreamerDisconnected. auto.
  - destruct (set_has (viewers room) sid) eqn:E2; [| intros []].
    apply set_has_In in E2.
    destruct (truthy (streamer room)) as [s |] eqn:Et; [| intros []].
    apply truthy_Some in Et. intros [<- | []].
    exists s, (EvViewerDisconnected sid). auto.
Qed.

(** X11. The handlers name only room members in their [io.to] calls.
    Apart from the [socket.join] call and the error emitted on the
    caller's own socket, every call made by a join for room [r] is an
    [io.to(target).emit] whose [target] string is the id of a socket that
    was already streamer or viewer of [r]; a leave of [r] only names
    members of [r], and only when the caller was a member too; a
    disconnect only names members of rooms the socket was in.  The
    statement is about the argument passed to [io.to]: which sockets
    socket.io then delivers to depends on its own rooms, which
    [socket.join(roomId)] also fills, and is not part of it. *)
Theorem X11_io_targets_are_members (sid r role : string) (rooms : Rooms) (c : call) :
  (In c (snd (join_room sid r role rooms)) ->
   c = SocketJoin sid r \/ c = SocketEmit sid (EvError error_message) \/
   exists target ev room,
     c = IoEmit target ev /\ rooms_get rooms r = Some room /\ member target room) /\
  (In c (snd (leave_room sid r rooms)) ->
   exists target ev room,
     c = IoEmit target ev /\ rooms_get rooms r = Some room /\
     member sid room /\ member target room) /\
  (In c (snd (disconnect sid rooms)) ->
   exists target ev k room,
     c = IoEmit target ev /\ In (k, room) rooms /\
     member sid room /\ member target room).
Proof.
  split; [| split].
  - unfold join_room. rewrite ensured_get.
    destruct (rooms_get rooms r) as [room |] eqn:E.
    + destruct (String.eqb role "streamer").
      * destruct (truthy _); simpl; [intuition auto |].
        intros [<- | Hin]; [now left |]. right. right.
        apply in_map_iff in Hin as [v [<- Hv]].
        exists v, EvStreamerJoined, room. unfold member. auto.
      * simpl. intros [<- | Hin]; [now left |]. right. right.
        destruct (truthy (streamer room)) as [s |] eqn:Et; [| destruct Hin].
        apply truthy_Some in Et. destruct Hin as [<- | []].
        exists s, (EvViewerJoined sid), room. unfold member. auto.
    + destruct (String.eqb role "streamer"); simpl; intuition auto.
  - unfold leave_room. destruct (rooms_get rooms r) as [room |] eqn:E.
    + rewrite (handleLeaveRoom_handleDisconnect _ _ _ _ E), handleDisconnect_notices.
      intros Hin. apply room_notices_targets in Hin as [target [ev [-> [H1 H2]]]].
      now exists target, ev, room.
    + rewrite handleLeaveRoom_absent by exact E. intros [].
  - unfold disconnect. rewrite disconnect_loop_notices, in_flat_map.
    intros [[k room] [Hin Hc]]. simpl in Hc.
    apply room_notices_targets in Hc as [target [ev [-> [H1 H2]]]].
    now exists target, ev, k, room.
Qed.

(** X13. A signal addressed to ["streamer"] for a room that has a
    streamer is delivered to that streamer as one [signal] event carrying
    the sender's socket id and the payload; the sender need not be in the
    room, and the table is not changed. *)
Theorem X13_signal_reaches_streamer
    (sid S room : string) (sig : Payload) (roomData : Room) (rooms : Rooms) :
  reachable rooms ->
  rooms_get rooms room = Some roomData -> streamer roomData = Some S ->
  signal sid "streamer" sig room rooms = (rooms, [IoEmit S (EvSignal sid sig)]).
Proof.
  intros Hreach Hget Hs.
  destruct (rooms_wf_get _ _ _ (reachable_wf _ Hreach) Hget) as [Hne _].
  unfold signal. simpl. now rewrite Hget, (truthy_wf _ Hne), Hs.
Qed.

(** * Joining and leaving again *)

Lemma rooms_delete_mutate (m : Rooms) (k : string) (f : Room -> Room) :
  rooms_delete (rooms_mutate m k f) k = rooms_delete m k.
Proof.
  induction m as [| [k' v'] m IH]; [reflexivity |].
  cbn [rooms_mutate]. unfold rooms_delete in *.
  destruct (String.eqb k' k) eqn:E; cbn [filter fst]; rewrite E; cbn [negb].
  - reflexivity.
  - now rewrite IH.
Qed.

(** X14. A streamer that joins a room of waiting viewers and then leaves
    takes the room with it: the room code has no entry any more, so the
    waiting viewers are out of the table; each of them was sent
    [streamer-joined] and then [streamer-disconnected]. *)
Theorem X14_streamer_visit_clears_room (sid r : string) (room : Room) (rooms : Rooms) :
  rooms_get rooms r = Some room -> streamer room = None ->
  run [Join sid r "streamer"; Leave sid r] rooms =
  (rooms_delete rooms r,
   SocketJoin sid r
     :: map (fun v => IoEmit v EvStreamerJoined) (viewers room)
     ++ map (fun v => IoEmit v EvStreamerDisconnected) (viewers room)) /\
  rooms_get (rooms_delete rooms r) r = None.
Proof.
  intros Hget Hs. split; [| apply rooms_get_delete_same].
  assert (Hjoin : join_room sid r "streamer" rooms =
                  (rooms_mutate rooms r (set_streamer sid),
                   SocketJoin sid r
                     :: map (fun v => IoEmit v EvStreamerJoined) (viewers room))).
  { unfold join_room. rewrite (ensured_present _ _ _ Hget), Hget. simpl.
    now rewrite Hs. }
  assert (Hleave : leave_room sid r (rooms_mutate rooms r (set_streamer sid)) =
                   (rooms_delete rooms r,
                    map (fun v => IoEmit v EvStreamerDisconnected) (viewers room))).
  { unfold leave_room, handleLeaveRoom.
    rewrite rooms_get_mutate_same, Hget. simpl.
    unfold streamer_is. simpl. rewrite String.eqb_refl.
    now rewrite rooms_delete_mutate. }
  simpl. rewrite Hjoin, Hleave. simpl. now rewrite app_nil_r.
Qed.

Lemma set_delete_absent (vs : list string) (sid : string) :
  ~ In sid vs -> set_delete vs sid = vs.
Proof.
  unfold set_delete. induction vs as [| x vs IH]; simpl; [reflexivity |].
  intros H. eqb_cases x sid; [exfalso; apply H; now left |].
  simpl. rewrite IH; [reflexivity | tauto].
Qed.

Lemma set_delete_add (vs : list string) (sid : string) :
  ~ In sid vs -> set_delete (set_add vs sid) sid = vs.
Proof.
  intros H. unfold set_add. rewrite (proj2 (set_has_false vs sid) H).
  unfold set_delete. rewrite filter_app. simpl. rewrite String.eqb_refl. simpl.
  rewrite app_nil_r. now apply set_delete_absent.
Qed.

Lemma join_room_new (sid r role : string) (rooms : Rooms) :
  rooms_get rooms r = None ->
  fst (join_room sid r role rooms) =
  rooms ++ [(r, if String.eqb role "streamer" then mkRoom (Some sid) []
                else mkRoom None [sid])].
Proof.
  intros Hnone. unfold join_room. rewrite ensured_get, Hnone.
  assert (He : ensured rooms r = rooms ++ [(r, mkRoom None [])]).
  { unfold ensured, rooms_has. rewrite Hnone. now apply rooms_set_absent. }
  rewrite He. apply rooms_get_None in Hnone.
  destruct (String.eqb role "streamer"); simpl;
    now rewrite (rooms_mutate_app _ _ _ _ _ Hnone).
Qed.

(** X12. Joining and leaving again is a round trip.  When a socket joins
    a room it is not in (as a viewer, or in any role when the room code is
    new) and then leaves it, the table is exactly the one before the
    join: same rooms, same order, same streamer and viewer sets. *)
Theorem X12_join_leave_round_trip (sid r role : string) (rooms : Rooms) :
  reachable rooms ->
  (forall room, rooms_get rooms r = Some room ->
                role <> "streamer" /\ streamer room <> Some sid /\ ~ In sid (viewers room)) ->
  fst (leave_room sid r (fst (join_room sid r role rooms))) = rooms.
Proof.
  intros Hreach Hout.
  pose proof (reachable_wf _ Hreach) as [Hnd Hrooms].
  pose proof (reachable_occupied _ Hreach) as Hocc.
  destruct (rooms_get rooms r) as [room |] eqn:E.
  - destruct (Hout room eq_refl) as [Hrole [Hs Hv]].
    destruct (rooms_wf_get _ _ _ (conj Hnd Hrooms) E) as [Hne _].
    assert (Hroom : occupied room).
    { rewrite Forall_forall in Hocc. exact (Hocc _ (rooms_get_In _ _ _ E)). }
    destruct (rooms_get_split _ _ _ E) as [pre [rest [Hm Hpre]]].
    assert (Hjoin : fst (join_room sid r role rooms) =
                    pre ++ (r, add_viewer sid room) :: rest).
    { unfold join_room. rewrite (ensured_present _ _ _ E), E.
      apply String.eqb_neq in Hrole. rewrite Hrole. simpl.
      rewrite Hm. now apply rooms_mutate_app. }
    rewrite Hjoin. unfold leave_room.
    assert (Hget' : rooms_get (pre ++ (r, add_viewer sid room) :: rest) r =
                    Some (add_viewer sid room)).
    { rewrite rooms_get_app, (proj2 (rooms_get_None pre r) Hpre). simpl.
      now rewrite String.eqb_refl. }
    rewrite (handleLeaveRoom_handleDisconnect _ _ _ _ Hget').
    rewrite handleDisconnect_sweep
      by (rewrite map_app in *; simpl in *; rewrite Hm, map_app in Hnd; exact Hnd).
    rewrite Hm. f_equal. unfold sweep_room. simpl.
    assert (E1 : streamer_is (add_viewer sid room) sid = false)
      by now apply streamer_is_false.
    assert (E2 : set_has (set_add (viewers room) sid) sid = true).
    { apply set_has_In, set_add_In. now right. }
    rewrite E1, E2, (set_delete_add _ _ Hv), (truthy_wf _ Hne).
    unfold delete_viewer. simpl. rewrite (set_delete_add _ _ Hv).
    destruct room as [st vs]. simpl in *.
    destruct st; [reflexivity |].
    destruct vs; [| reflexivity].
    destruct Hroom as [H | H]; now elim H.
  - rewrite (join_room_new _ _ role _ E). unfold leave_room.
    set (room' := if String.eqb role "streamer" then mkRoom (Some sid) []
                  else mkRoom None [sid]).
    assert (Hkey : ~ In r (map fst rooms)) by now apply rooms_get_None.
    assert (Hget' : rooms_get (rooms ++ [(r, room')]) r = Some room').
    { rewrite rooms_get_app, E. simpl. now rewrite String.eqb_refl. }
    rewrite (handleLeaveRoom_handleDisconnect _ _ _ _ Hget').
    rewrite handleDisconnect_sweep.
    + assert (Hgone : sweep_room sid (r, room') = []).
      { unfold sweep_room, room', streamer_is, set_has. simpl.
        destruct (String.eqb role "streamer"); simpl; rewrite String.eqb_refl;
          reflexivity. }
      rewrite Hgone. simpl. now rewrite app_nil_r.
    + rewrite map_app. simpl. apply NoDup_app; [exact Hnd | |].
      * constructor; [intros [] | constructor].
      * intros a Ha [<- | []]. contradiction.
Qed.

End Coordinator.

Arguments EvError {Payload}.
Arguments EvStreamerJoined {Payload}.
Arguments EvViewerJoined {Payload}.
Arguments EvSignal {Payload}.
Arguments EvStreamerSignal {Payload}.
Arguments EvViewerDisconnected {Payload}.
Arguments EvStreamerDisconnected {Payload}.
Arguments SocketJoin {Payload}.
Arguments SocketEmit {Payload}.
Arguments IoEmit {Payload}.
Arguments Join {Payload}.
Arguments Signal {Payload}.
Arguments Leave {Payload}.
Arguments Disconnect {Payload}.

(** * The handlers on concrete scenarios

    Payloads are strings here; socket ids and room codes are those of the
    scenarios of the specification. *)

Ltac sids_ok := repeat (constructor; [simpl; discriminate |]); constructor.

(** ABC1: the viewer arrives first and hears [streamer-joined] when the
    streamer arrives; the streamer is told nothing about the waiting viewer. *)
Example scenario_viewer_first :
  run string [Join "V" "ABC1" "viewer"; Join "S" "ABC1" "streamer"] rooms_empty =
  ([("ABC1", mkRoom (Some "S") ["V"])],
   [SocketJoin "V" "ABC1"; SocketJoin "S" "ABC1"; IoEmit "V" EvStreamerJoined]).
Proof. reflexivity. Qed.

(** A full session: join, handshake in both directions, viewer drops,
    streamer leaves; the table ends empty. *)
Example scenario_session :
  run string [Join "S" "R" "streamer"; Join "V" "R" "viewer";
              Signal "S" "V" "offer" "R"; Signal "V" "streamer" "answer" "R";
              Disconnect "V"; Leave "S" "R"] rooms_empty =
  (rooms_empty,
   [SocketJoin "S" "R"; SocketJoin "V" "R"; IoEmit "S" (EvViewerJoined "V");
    IoEmit "V" (EvStreamerSignal "offer"); IoEmit "S" (EvSignal "V" "answer");
    IoEmit "S" (EvViewerDisconnected "V")]).
Proof. reflexivity. Qed.

(** ROOM9: S1 streams, S2 asks to stream too. *)
Lemma C1_single_streamer_witness :
  let rooms : Rooms := [("ROOM9", mkRoom (Some "S1") [])] in
  reachable string rooms /\
  join_room string "S2" "ROOM9" "streamer" rooms =
    (rooms, [SocketJoin "S2" "ROOM9"; SocketEmit "S2" (EvError error_message)]).
Proof.
  intros rooms.
  assert (Hr : reachable string rooms).
  { apply (reachable_run string [Join "S1" "ROOM9" "streamer"] []
             (reachable_init string)). sids_ok. }
  split; [exact Hr |].
  apply (proj2 (C1_single_streamer string rooms Hr) "ROOM9"
           (mkRoom (Some "S1") []) "S1" "S2");
    [reflexivity | reflexivity | discriminate].
Defined.

(** R1: S streams to V, then S goes. *)
Lemma C2_streamer_teardown_witness :
  let rooms : Rooms := [("R1", mkRoom (Some "S") ["V"])] in
  rooms_get (fst (disconnect string "S" rooms)) "R1" = None /\
  In (IoEmit "V" EvStreamerDisconnected) (snd (disconnect string "S" rooms)) /\
  rooms_get (fst (leave_room string "S" "R1" rooms)) "R1" = None.
Proof.
  intros rooms.
  destruct (C2_streamer_teardown string rooms "R1" (mkRoom (Some "S") ["V"]) "S"
              eq_refl eq_refl)
    as [[L1 _] [D1 D2]].
  split; [exact D1 |]. split; [| exact L1].
  apply D2. simpl. now left.
Defined.

Lemma C3_streamer_leave_deletes_witness :
  let rooms : Rooms := [("R1", mkRoom (Some "S") ["V"]); ("R2", mkRoom None ["W"])] in
  fst (leave_room string "S" "R1" rooms) = [("R2", mkRoom None ["W"])].
Proof.
  intros rooms.
  exact (proj2 (proj2 (C3_streamer_leave_deletes string rooms "R1"
                         (mkRoom (Some "S") ["V"]) "S" eq_refl eq_refl))).
Defined.

(** The streamer of R1 leaves while V is still in the viewer set: the
    entry is gone although the viewer set was not empty. *)
Lemma C3_counterexample :
  let rooms : Rooms :=
    fst (run string [Join "S" "R1" "streamer"; Join "V" "R1" "viewer"] rooms_empty) in
  rooms = [("R1", mkRoom (Some "S") ["V"])] /\
  ~ (rooms_get (fst (leave_room string "S" "R1" rooms)) "R1" = None <->
     viewers (mkRoom (Some "S") ["V"]) = []) /\
  ~ (rooms_get (fst (disconnect string "S" rooms)) "R1" = None <->
     viewers (mkRoom (Some "S") ["V"]) = []).
Proof.
  intros rooms. split; [reflexivity |].
  split; intros [H _]; specialize (H eq_refl); discriminate H.
Qed.

Lemma C4_repeated_join_witness :
  let rooms : Rooms := [("R", mkRoom (Some "S") [])] in
  let rooms1 : Rooms := [("R", mkRoom (Some "S") ["V"])] in
  reachable string rooms /\
  fst (join_room string "V" "R" "viewer" rooms) = rooms1 /\
  fst (join_room string "V" "R" "viewer" rooms1) = rooms1.
Proof.
  intros rooms rooms1.
  assert (Hr : reachable string rooms).
  { apply (reachable_run string [Join "S" "R" "streamer"] []
             (reachable_init string)). sids_ok. }
  split; [exact Hr |]. split; [reflexivity |].
  apply (C4_repeated_join string rooms "V" "R" "viewer" Hr). discriminate.
Defined.

(** A second join as streamer is answered with the error; a second join
    as viewer makes the streamer hear [viewer-joined] once more. *)
Lemma C4_counterexample :
  let rooms1 : Rooms := fst (join_room string "C" "R" "streamer" rooms_empty) in
  let rooms2 : Rooms :=
    fst (run string [Join "S" "R" "streamer"; Join "V" "R" "viewer"] rooms_empty) in
  (notifications string (snd (join_room string "C" "R" "streamer" rooms1)) =
     [SocketEmit "C" (EvError "Room already has a streamer")] /\
   notifications string (snd (join_room string "C" "R" "streamer" rooms1)) <> []) /\
  (notifications string (snd (join_room string "V" "R" "viewer" rooms2)) =
     [IoEmit "S" (EvViewerJoined "V")] /\
   notifications string (snd (join_room string "V" "R" "viewer" rooms2)) <> []).
Proof.
  intros rooms1 rooms2. repeat split; try reflexivity; discriminate.
Qed.

(** X joins room A twice, in both roles; V joins room B once and then
    asks once more.  V keeps the discipline, X does not. *)
Lemma C5_single_membership_witness :
  let rooms : Rooms :=
    [("A", mkRoom (Some "X") ["X"]); ("B", mkRoom None ["V"])] in
  reachable_for string "V" rooms /\
  List.length (memberships "V" rooms) <= 1.
Proof.
  intros rooms.
  assert (Hr : reachable_for string "V" rooms).
  { assert (H1 : reachable_for string "V" [("A", mkRoom None ["X"])]).
    { apply (reachable_for_step string "V" _ (Join "X" "A" "viewer")
               (reachable_for_init string "V")).
      intros E. discriminate E. }
    assert (H2 : reachable_for string "V" [("A", mkRoom (Some "X") ["X"])]).
    { apply (reachable_for_step string "V" _ (Join "X" "A" "streamer") H1).
      intros E. discriminate E. }
    assert (H3 : reachable_for string "V" rooms).
    { apply (reachable_for_step string "V" _ (Join "V" "B" "viewer") H2).
      intros _. left. reflexivity. }
    apply (reachable_for_step string "V" _ (Join "V" "B" "viewer") H3).
    intros _. right. exists (mkRoom None ["V"]). split; [reflexivity |].
    simpl. now left. }
  split; [exact Hr |].
  exact (proj1 (C5_single_membership string "V" rooms Hr)).
Defined.

(** One socket joins room A as viewer, then as streamer, then room B. *)
Lemma C5_counterexample :
  let rooms : Rooms :=
    fst (run string [Join "C" "A" "viewer"; Join "C" "A" "streamer";
                     Join "C" "B" "viewer"] rooms_empty) in
  reachable string rooms /\
  rooms = [("A", mkRoom (Some "C") ["C"]); ("B", mkRoom None ["C"])] /\
  memberships "C" rooms = [("A", RStreamer); ("A", RViewer); ("B", RViewer)] /\
  ~ List.length (memberships "C" rooms) <= 1.
Proof.
  intros rooms. split.
  - apply (reachable_run string _ [] (reachable_init string)). sids_ok.
  - split; [reflexivity |]. split; [reflexivity |].
    simpl. lia.
Qed.


Lemma C7_signal_without_streamer_witness :
  let rooms : Rooms := [("ABC1", mkRoom None ["V"])] in
  signal string "V" "streamer" "offer" "ABC1" rooms = (rooms, []) /\
  signal string "V" "streamer" "offer" "NONE" rooms = (rooms, []).
Proof.
  intros rooms. split.
  - apply C7_signal_without_streamer. right.
    exists (mkRoom None ["V"]). split; reflexivity.
  - apply C7_signal_without_streamer. left. reflexivity.
Defined.

Lemma C8_join_unvalidated_witness :
  join_room string "C" "" "admin" rooms_empty =
  join_room string "C" "" "viewer" rooms_empty.
Proof.
  apply (proj1 (proj2 (C8_join_unvalidated string rooms_empty "C" "" "admin"))).
  discriminate.
Defined.

(** An empty room code and an unknown role are both served: the table is
    changed and nothing is reported to the caller. *)
Lemma C8_counterexample :
  (join_room string "C" "" "viewer" rooms_empty =
     ([("", mkRoom None ["C"])], [SocketJoin "C" ""]) /\
   join_room string "C" "R" "admin" rooms_empty =
     ([("R", mkRoom None ["C"])], [SocketJoin "C" "R"])) /\
  ~ (fst (join_room string "C" "" "viewer" rooms_empty) = rooms_empty) /\
  ~ (fst (join_room string "C" "R" "admin" rooms_empty) = rooms_empty) /\
  notifications string (snd (join_room string "C" "" "viewer" rooms_empty)) = [] /\
  notifications string (snd (join_room string "C" "R" "admin" rooms_empty)) = [].
Proof.
  split; [split; reflexivity |].
  split; [discriminate |]. split; [discriminate |]. split; reflexivity.
Qed.

Lemma C9_stranger_noop_witness :
  let rooms : Rooms := [("R1", mkRoom (Some "S") ["V"])] in
  disconnect string "X" rooms = (rooms, []) /\
  leave_room string "X" "R1" rooms = (rooms, []).
Proof.
  intros rooms.
  assert (H : forall k room, In (k, room) rooms ->
                             streamer room <> Some "X" /\ ~ In "X" (viewers room)).
  { intros k room [[= <- <-] | []]. simpl. split; [discriminate |].
    intros [E | []]. discriminate E. }
  destruct (C9_stranger_noop string rooms "X" H) as [D L].
  split; [exact D | exact (L "R1")].
Defined.

Lemma C10_signal_direct_witness :
  signal string "S" "V7" "answer" "nowhere" rooms_empty =
  (rooms_empty, [IoEmit "V7" (EvStreamerSignal "answer")]).
Proof.
  apply (C10_signal_direct string "S" "V7" "answer" "nowhere" rooms_empty).
  discriminate.
Defined.

(** * Further scenarios *)

Ltac keys_distinct := repeat (constructor; [simpl; intuition discriminate |]); constructor.

Lemma X1_no_empty_room_witness :
  let rooms : Rooms := [("R2", mkRoom (Some "S") ["V1"])] in
  reachable string rooms /\
  (streamer (mkRoom (Some "S") ["V1"]) <> None \/ viewers (mkRoom (Some "S") ["V1"]) <> []).
Proof.
  intros rooms.
  assert (Hr : reachable string rooms).
  { apply (reachable_run string [Join "S" "R2" "streamer"; Join "V1" "R2" "viewer"] []
             (reachable_init string)). sids_ok. }
  split; [exact Hr |].
  apply (X1_no_empty_room string rooms Hr "R2"). simpl. now left.
Defined.

(** C streams in A, watches in B with W, and is unknown in D. *)
Lemma X2_disconnect_room_by_room_witness :
  let rooms : Rooms :=
    [("A", mkRoom (Some "C") ["V"]); ("B", mkRoom None ["C"; "W"]);
     ("D", mkRoom (Some "S") [])] in
  disconnect string "C" rooms =
  ([("B", mkRoom None ["W"]); ("D", mkRoom (Some "S") [])],
   [IoEmit "V" EvStreamerDisconnected]).
Proof.
  intros rooms. apply (X2_disconnect_room_by_room string "C" rooms). keys_distinct.
Defined.

Lemma X3_disconnect_clears_memberships_witness :
  let rooms : Rooms :=
    [("A", mkRoom (Some "C") ["V"]); ("B", mkRoom None ["C"; "W"])] in
  streamer (mkRoom None ["W"]) <> Some "C" /\ ~ In "C" (viewers (mkRoom None ["W"])).
Proof.
  intros rooms.
  apply (X3_disconnect_clears_memberships string "C" rooms ltac:(keys_distinct) "B").
  simpl. now left.
Defined.

Lemma X4_teardown_idempotent_witness :
  let rooms : Rooms :=
    [("A", mkRoom (Some "C") ["V"]); ("B", mkRoom None ["C"; "W"])] in
  disconnect string "C" [("B", mkRoom None ["W"])] = ([("B", mkRoom None ["W"])], []) /\
  leave_room string "C" "B" [("A", mkRoom (Some "C") ["V"]); ("B", mkRoom None ["W"])] =
    ([("A", mkRoom (Some "C") ["V"]); ("B", mkRoom None ["W"])], []).
Proof.
  intros rooms.
  destruct (X4_teardown_idempotent string "C" rooms ltac:(keys_distinct)) as [D L].
  split; [exact D | exact (L "B")].
Defined.

Lemma X5_disconnect_is_leave_witness :
  let rooms : Rooms :=
    [("R1", mkRoom (Some "S") ["V"]); ("R2", mkRoom (Some "T") [])] in
  disconnect string "V" rooms = leave_room string "V" "R1" rooms.
Proof.
  intros rooms. apply (X5_disconnect_is_leave string "V" "R1" rooms).
  - keys_distinct.
  - intros k room [[= <- <-] | [[= <- <-] | []]] Hk; simpl.
    + now elim Hk.
    + split; [discriminate | tauto].
Defined.

Lemma X6_join_streamer_vacant_witness :
  let rooms : Rooms := [("ABC1", mkRoom None ["V"; "W"])] in
  rooms_get (fst (join_room string "S" "ABC1" "streamer" rooms)) "ABC1" =
    Some (mkRoom (Some "S") ["V"; "W"]) /\
  snd (join_room string "S" "ABC1" "streamer" rooms) =
    [SocketJoin "S" "ABC1"; IoEmit "V" EvStreamerJoined; IoEmit "W" EvStreamerJoined].
Proof.
  intros rooms. apply (X6_join_streamer_vacant string "S" "ABC1" rooms).
  intros room [= <-]. reflexivity.
Defined.

Lemma X7_join_viewer_witness :
  let rooms : Rooms := [("R", mkRoom (Some "S") ["V"])] in
  reachable string rooms /\
  rooms_get (fst (join_room string "W" "R" "viewer" rooms)) "R" =
    Some (mkRoom (Some "S") ["V"; "W"]) /\
  snd (join_room string "W" "R" "viewer" rooms) =
    [SocketJoin "W" "R"; IoEmit "S" (EvViewerJoined "W")].
Proof.
  intros rooms.
  assert (Hr : reachable string rooms).
  { apply (reachable_run string [Join "S" "R" "streamer"; Join "V" "R" "viewer"] []
             (reachable_init string)). sids_ok. }
  split; [exact Hr |].
  destruct (X7_join_viewer string "W" "R" "viewer" rooms Hr ltac:(discriminate))
    as [H1 [H2 _]].
  split; [exact H1 | exact H2].
Defined.

Lemma X8_other_rooms_untouched_witness :
  let rooms : Rooms := [("R1", mkRoom (Some "S") ["V"]); ("R2", mkRoom None ["W"])] in
  rooms_get (fst (leave_room string "S" "R1" rooms)) "R2" = Some (mkRoom None ["W"]).
Proof.
  intros rooms.
  apply (X8_other_rooms_untouched string "S" "R1" "streamer" "R2" "V" "R1" "offer" rooms).
  discriminate.
Defined.

Lemma X9_streamer_stays_witness :
  let rooms : Rooms := [("R", mkRoom (Some "S") ["V"])] in
  reachable string rooms /\
  exists room',
    rooms_get (fst (step string (Join "T" "R" "streamer") rooms)) "R" = Some room' /\
    streamer room' = Some "S".
Proof.
  intros rooms.
  assert (Hr : reachable string rooms).
  { apply (reachable_run string [Join "S" "R" "streamer"; Join "V" "R" "viewer"] []
             (reachable_init string)). sids_ok. }
  split; [exact Hr |].
  apply (X9_streamer_stays string rooms "R" (mkRoom (Some "S") ["V"]) "S"
           (Join "T" "R" "streamer") Hr eq_refl eq_refl).
  simpl. discriminate.
Defined.

Lemma X10_viewer_stays_witness :
  let rooms : Rooms := [("R", mkRoom (Some "S") ["V"; "W"])] in
  reachable string rooms /\
  ((exists room',
       rooms_get (fst (step string (Disconnect "W") rooms)) "R" = Some room' /\
       In "V" (viewers room')) \/
   (streamer (mkRoom (Some "S") ["V"; "W"]) = Some "W" /\
    rooms_get (fst (step string (Disconnect "W") rooms)) "R" = None)).
Proof.
  intros rooms.
  assert (Hr : reachable string rooms).
  { apply (reachable_run string
             [Join "S" "R" "streamer"; Join "V" "R" "viewer"; Join "W" "R" "viewer"] []
             (reachable_init string)). sids_ok. }
  split; [exact Hr |].
  apply (X10_viewer_stays string rooms "R" (mkRoom (Some "S") ["V"; "W"]) "V"
           (Disconnect "W") Hr eq_refl).
  - simpl. now left.
  - simpl. discriminate.
Defined.

Lemma X11_io_targets_are_members_witness :
  let rooms : Rooms := [("R", mkRoom (Some "S") ["V"])] in
  exists (target : string) (ev : event string) (room : Room),
    IoEmit "S" (EvViewerDisconnected "V") = IoEmit target ev /\
    rooms_get rooms "R" = Some room /\ member "V" room /\ member target room.
Proof.
  intros rooms.
  apply (proj1 (proj2 (X11_io_targets_are_members string "V" "R" "viewer" rooms
                         (IoEmit "S" (EvViewerDisconnected "V"))))).
  simpl. now left.
Defined.

Lemma X12_join_leave_round_trip_witness :
  let rooms : Rooms := [("R", mkRoom (Some "S") ["V"])] in
  reachable string rooms /\
  fst (leave_room string "W" "R" (fst (join_room string "W" "R" "viewer" rooms))) = rooms /\
  fst (leave_room string "W" "Q" (fst (join_room string "W" "Q" "streamer" rooms))) = rooms.
Proof.
  intros rooms.
  assert (Hr : reachable string rooms).
  { apply (reachable_run string [Join "S" "R" "streamer"; Join "V" "R" "viewer"] []
             (reachable_init string)). sids_ok. }
  split; [exact Hr |]. split.
  - apply (X12_join_leave_round_trip string "W" "R" "viewer" rooms Hr).
    intros room [= <-]. simpl.
    split; [discriminate |]. split; [discriminate |].
    intros [E | []]. discriminate E.
  - apply (X12_join_leave_round_trip string "W" "Q" "streamer" rooms Hr).
    intros room E. discriminate E.
Defined.

Lemma X13_signal_reaches_streamer_witness :
  let rooms : Rooms := [("R", mkRoom (Some "S") [])] in
  reachable string rooms /\
  signal string "X" "streamer" "answer" "R" rooms =
    (rooms, [IoEmit "S" (EvSignal "X" "answer")]).
Proof.
  intros rooms.
  assert (Hr : reachable string rooms).
  { apply (reachable_run string [Join "S" "R" "streamer"] []
             (reachable_init string)). sids_ok. }
  split; [exact Hr |].
  exact (X13_signal_reaches_streamer string "X" "S" "R" "answer"
           (mkRoom (Some "S") []) rooms Hr eq_refl eq_refl).
Defined.

Lemma X14_streamer_visit_clears_room_witness :
  let rooms : Rooms := [("ABC1", mkRoom None ["V"])] in
  run string [Join "S" "ABC1" "streamer"; Leave "S" "ABC1"] rooms =
  ([], [SocketJoin "S" "ABC1"; IoEmit "V" EvStreamerJoined;
        IoEmit "V" EvStreamerDisconnected]).
Proof.
  intros rooms.
  exact (proj1 (X14_streamer_visit_clears_room string "S" "ABC1"
                  (mkRoom None ["V"]) rooms eq_refl eq_refl)).
Defined.
